(** * process-pool-demo: the timing wrapper, the pool dispatcher, the reporting
    facade (utils.py) and the factorising workload (functions.py).

    Python values are embedded as follows.
    - [int] is [Z] (unbounded); [//] and [%] are [Z.div] and [Z.modulo]
      (both floor, sign of the divisor), raising [ZeroDivisionError] at 0.
    - seconds (Python floats read from [time.time()]) are rationals [Q];
      the rounding of the float subtraction is not modelled.
    - a call either returns or raises: [Result].
    - the interpreter state touched by the code is a [World]: the wall
      clock, the order in which the pool's futures complete, and the trace
      of observable events (prints, pool construction and teardown,
      task submissions). *)

From Stdlib Require Import ZArith QArith List String Bool Lia Lqa Permutation.
From Stdlib Require Import Zdivisibility.
From Equations Require Import Equations.
Import ListNotations.

Open Scope Z_scope.

(** ** Exceptions and results *)

Inductive Exn : Type :=
| ValueError (msg : string)
| ZeroDivisionError
| OverflowError
| StopIteration
| RuntimeError (msg : string)
| AdapterError (tag : Z).

Inductive Result (A : Type) : Type :=
| Ok (a : A)
| Raise (e : Exn).

Arguments Ok {A} a.
Arguments Raise {A} e.

Definition is_ok {A} (r : Result A) : bool :=
  match r with Ok _ => true | Raise _ => false end.

(** ** Observable events *)

Inductive PoolType : Type :=
| ThreadPoolExecutor
| ProcessPoolExecutor.

Inductive Event (V : Type) : Type :=
| EvPoolEnter (pool_type : PoolType) (max_workers : option Z)
| EvSubmit (index : Z)
| EvPoolExit
| EvPrintRunning (name : string)
| EvPrintResults (results : list V)
| EvPrintTaskTimes (times : list Q) (total : Q)
| EvPrintActualTime (total_time : Q)
| EvPrintVerbose (line : list Z).

Arguments EvPoolEnter {V} pool_type max_workers.
Arguments EvSubmit {V} index.
Arguments EvPoolExit {V}.
Arguments EvPrintRunning {V} name.
Arguments EvPrintResults {V} results.
Arguments EvPrintTaskTimes {V} times total.
Arguments EvPrintActualTime {V} total_time.
Arguments EvPrintVerbose {V} line.

(** ** The world

    [clock k] is what the [k]-th call of [time.time()] returns.  It is the
    wall clock: nothing constrains two successive readings.
    [completion] is the scheduler's choice of which pending future finishes
    next (see [as_completed]).  [trace] is the list of events so far, oldest
    first. *)

Record World (V : Type) : Type := mkWorld {
  clock : nat -> Q;
  now : nat;
  completion : list nat;
  trace : list (Event V)
}.

Arguments mkWorld {V} clock now completion trace.
Arguments clock {V} w k.
Arguments now {V} w.
Arguments completion {V} w.
Arguments trace {V} w.

(** ** A state-and-exception monad over the world *)

Definition M (V A : Type) : Type := World V -> Result A * World V.

Definition ret {V A} (a : A) : M V A := fun w => (Ok a, w).

Definition raise {V A} (e : Exn) : M V A := fun w => (Raise e, w).

Definition bind {V A B} (m : M V A) (k : A -> M V B) : M V B :=
  fun w =>
    match m w with
    | (Ok a, w') => k a w'
    | (Raise e, w') => (Raise e, w')
    end.

Declare Scope py_scope.
Delimit Scope py_scope with py.
Notation "x <- m ;; k" := (bind m (fun x => k))
  (at level 61, m at next level, right associativity) : py_scope.
Notation "m ;;; k" := (bind m (fun _ => k))
  (at level 61, right associativity) : py_scope.
Open Scope py_scope.

Definition lift {V A} (r : Result A) : M V A := fun w => (r, w).

Definition emit {V} (ev : Event V) : M V unit :=
  fun w => (Ok tt, mkWorld (clock w) (now w) (completion w) (trace w ++ [ev])).

(** [time()] of the [time] module: read the wall clock. *)
Definition reading {V} (w : World V) : Q := clock w (now w).

Definition tick {V} (w : World V) : World V :=
  mkWorld (clock w) (S (now w)) (completion w) (trace w).

Definition time {V} : M V Q := fun w => (Ok (reading w), tick w).

(** ** utils.timed

    [f_timed]: read the clock, call [f], read the clock
    again, return the pair.  There is no [try]: an exception of [f] leaves
    [f_timed] at once. *)
Definition timed {V A B} (f : A -> M V B) : A -> M V (B * Q) :=
  fun args =>
    t0 <- time ;;
    result <- f args ;;
    t1 <- time ;;
    ret (result, (t1 - t0)%Q).

(** ** Workload adapters, futures and the executor

    An adapter is the callable handed to the dispatcher as [timed_fun]: it
    has a [__name__] and, called on a task index with the keyword
    [verbose], returns a pair (value, seconds) or raises.  The call runs in
    a worker of the pool; [call] is the outcome of that run, as the future
    later reports it. *)

Definition Outcome (V : Type) : Type := Result (V * Q).

Record Adapter (V : Type) : Type := mkAdapter {
  adapter_name : string;
  call : Z -> bool -> Outcome V
}.

Arguments mkAdapter {V} adapter_name call.
Arguments adapter_name {V} a.
Arguments call {V} a index verbose.

Record Future (V : Type) : Type := mkFuture {
  fut_index : Z;
  fut_outcome : Outcome V
}.

Arguments mkFuture {V} fut_index fut_outcome.
Arguments fut_index {V} f.
Arguments fut_outcome {V} f.

Record Pool : Type := mkPool {
  pool_kind : PoolType;
  pool_workers : option Z
}.

(** [range(n)]: the integers 0 .. n-1, empty when [n <= 0]. *)
Definition range (n : Z) : list Z := map Z.of_nat (seq 0 (Z.to_nat n)).

(** A [for] loop or list comprehension collecting one value per element,
    left to right, leaving at the first exception. *)
Fixpoint mapM {V A B} (f : A -> M V B) (l : list A) : M V (list B) :=
  match l with
  | [] => ret []
  | x :: l' => y <- f x ;; ys <- mapM f l' ;; ret (y :: ys)
  end.

(** [pool_type(max_workers)]: both executor classes of [concurrent.futures]
    refuse a worker count that is not positive. *)
Definition new_pool {V} (pool_type : PoolType) (max_workers : option Z)
  : M V Pool :=
  match max_workers with
  | Some k =>
      if k <=? 0
      then raise (ValueError "max_workers must be greater than 0")
      else ret (mkPool pool_type max_workers)
  | None => ret (mkPool pool_type max_workers)
  end.

(** [try: m finally: cleanup]. *)
Definition finally {V A} (m : M V A) (cleanup : M V unit) : M V A :=
  fun w =>
    match m w with
    | (r, w') =>
        match cleanup w' with
        | (Ok _, w'') => (r, w'')
        | (Raise e, w'') => (Raise e, w'')
        end
    end.

(** [with pool_type(max_workers) as pool: body]: the executor's [__exit__]
    is [shutdown(wait=True)], on every way out of the body. *)
Definition with_pool {V A} (pool_type : PoolType) (max_workers : option Z)
    (body : Pool -> M V A) : M V A :=
  pool <- new_pool pool_type max_workers ;;
  emit (EvPoolEnter pool_type max_workers) ;;;
  finally (body pool) (emit EvPoolExit).

(** [pool.submit(pfun, i)]: enqueue, return the handle at once. *)
Definition submit {V} (pool : Pool) (pfun : Z -> Outcome V) (i : Z)
  : M V (Future V) :=
  emit (EvSubmit i) ;;;
  ret (mkFuture i (pfun i)).

(** [task.result()]: the task's return value, or its exception re-raised. *)
Definition result {V} (task : Future V) : M V (V * Q) :=
  lift (fut_outcome task).

(** The order in which pending futures finish.  Each pick [k] designates the
    [(k mod p)]-th of the [p] futures still pending; when the picks run out
    the rest finish in the order they were submitted. *)
Fixpoint completion_order {A} (picks : list nat) (pending : list A) : list A :=
  match picks with
  | [] => pending
  | k :: picks' =>
      match pending with
      | [] => []
      | x :: _ =>
          let j := (k mod List.length pending)%nat in
          nth j pending x
            :: completion_order picks' (firstn j pending ++ skipn (S j) pending)
      end
  end.

(** [concurrent.futures.as_completed(tasks)]: every future once, in the order
    they finish. *)
Definition as_completed {V} (tasks : list (Future V)) : M V (list (Future V)) :=
  fun w =>
    (Ok (completion_order (completion w) tasks),
     mkWorld (clock w) (now w) (skipn (List.length tasks) (completion w)) (trace w)).

(** [pool.map(pfun, range(n))]: [Executor.map] submits every item up front
    and returns a generator that holds the futures, in the order of the
    items. *)
Definition pool_map {V} (pool : Pool) (pfun : Z -> Outcome V) (items : list Z)
  : M V (list (Future V)) :=
  mapM (submit pool pfun) items.

(** An exception that leaves the body of a generator: [StopIteration] is
    replaced by [RuntimeError], any other exception passes. *)
Definition generator_exit (e : Exn) : Exn :=
  match e with
  | StopIteration => RuntimeError "generator raised StopIteration"
  | _ => e
  end.

Definition in_generator {A} (r : Result A) : Result A :=
  match r with
  | Ok x => Ok x
  | Raise e => Raise (generator_exit e)
  end.

(** One step of the generator of [Executor.map]: it calls [result()] on its
    next future inside its own body and yields the value.  After a failure
    the generator also asks the futures it has not reached to cancel; which
    of the submitted tasks run is not part of the world. *)
Definition yield_result {V} (task : Future V) : M V (V * Q) :=
  lift (in_generator (fut_outcome task)).

(** [results, times = zip( *results_times)]: the star draws every pair out
    of [results_times] (a list in [submit_get_results], the generator of
    [Executor.map] in [map_results]); the target list has two names, so the
    transposed sequence must have exactly two rows; rows come from the two
    components of each pair, and there are none when there is no pair. *)
Definition unpack_zip_star {V} (results_times : list (V * Q))
  : Result (list V * list Q) :=
  match results_times with
  | [] => Raise (ValueError "not enough values to unpack (expected 2, got 0)")
  | _ :: _ => Ok (split results_times)
  end.

(** ** utils.submit_get_results and utils.map_results *)

Definition submit_get_results_raw {V} (timed_fun : Adapter V) (n : Z)
    (pool_type : PoolType) (as_completed_flag : bool)
    (max_workers : option Z) (verbose : bool) : M V (list V * list Q) :=
  with_pool pool_type max_workers (fun pool =>
    let pfun := fun i => call timed_fun i verbose in
    tasks <- mapM (submit pool pfun) (range n) ;;
    results_times <-
      (if as_completed_flag
       then done <- as_completed tasks ;; mapM result done
       else mapM result tasks) ;;
    lift (unpack_zip_star results_times)).

Definition submit_get_results {V} (timed_fun : Adapter V) (n : Z)
    (pool_type : PoolType) (as_completed_flag : bool)
    (max_workers : option Z) (verbose : bool)
  : M V ((list V * list Q) * Q) :=
  timed (fun '(f, k, pt, ac, mw, vb) => submit_get_results_raw f k pt ac mw vb)
        (timed_fun, n, pool_type, as_completed_flag, max_workers, verbose).

Definition map_results_raw {V} (timed_fun : Adapter V) (n : Z)
    (pool_type : PoolType) (max_workers : option Z) (verbose : bool)
  : M V (list V * list Q) :=
  with_pool pool_type max_workers (fun pool =>
    let pfun := fun i => call timed_fun i verbose in
    results_times <- pool_map pool pfun (range n) ;;
    rows <- mapM yield_result results_times ;;
    lift (unpack_zip_star rows)).

Definition map_results {V} (timed_fun : Adapter V) (n : Z)
    (pool_type : PoolType) (max_workers : option Z) (verbose : bool)
  : M V ((list V * list Q) * Q) :=
  timed (fun '(f, k, pt, mw, vb) => map_results_raw f k pt mw vb)
        (timed_fun, n, pool_type, max_workers, verbose).

(** ** utils.display_results *)

(** [sum(times)]: left to right from 0. *)
Definition sum (times : list Q) : Q := fold_left Qplus times 0%Q.

Definition display_results {V} (timed_fun : Adapter V) (n : Z)
    (pool_type : PoolType) (submit_type : string) (as_completed_flag : bool)
    (max_workers : option Z) (verbose : bool) : M V unit :=
  emit (EvPrintRunning (adapter_name timed_fun)) ;;;
  out <-
    (if (submit_type =? "submit")%string
     then submit_get_results timed_fun n pool_type as_completed_flag
            max_workers verbose
     else if (submit_type =? "map")%string
     then map_results timed_fun n pool_type max_workers verbose
     else raise (ValueError
                   ("Unrecognized value for submit_type: " ++ submit_type)%string)) ;;
  let '((results, times), total_time) := out in
  emit (EvPrintResults results) ;;;
  emit (EvPrintTaskTimes times (sum times)) ;;;
  emit (EvPrintActualTime total_time).

(** ** functions.long_factorize *)

(** [vprint]: print only when [verbose]. *)
Definition vprint {V} (verbose : bool) (line : list Z) : M V unit :=
  if verbose then emit (EvPrintVerbose line) else ret tt.

(** The default limit on the decimal digits of an int that is turned into a
    string (CPython 3.11): at most 4300. *)
Definition digits_limit : Z := 10 ^ 4300.

Definition digits_error : Exn :=
  ValueError "Exceeds the limit (4300) for integer string conversion".

Definition printable (x : Z) : Prop := Z.abs x < digits_limit.

(** An f-string that formats the given ints, left to right.  It is built
    before [vprint] is called, whatever [verbose] is. *)
Fixpoint format_ints (line : list Z) : Result (list Z) :=
  match line with
  | [] => Ok []
  | x :: rest =>
      if digits_limit <=? Z.abs x
      then Raise digits_error
      else match format_ints rest with
           | Ok r => Ok (x :: r)
           | Raise e => Raise e
           end
  end.

(** Rounding of a non-negative integer to the nearest integer with at most
    53 significant bits, ties to even: the value of the binary64 float
    nearest to it. *)
Definition round53 (v : Z) : Z :=
  let e := Z.log2 v - 52 in
  if e <=? 0 then v
  else
    let q := v / 2 ^ e in
    let r := v mod 2 ^ e in
    let half := 2 ^ (e - 1) in
    if (half <? r) || ((r =? half) && Z.odd q)
    then (q + 1) * 2 ^ e
    else q * 2 ^ e.

(** Every binary64 float is below [2 ^ 1024] in absolute value; this is
    twice that bound. *)
Definition float_limit2 : Z := 2 ^ 1025.

(** [int(value / 2)].  [/] on two ints is the correctly rounded float
    quotient, [OverflowError] when it does not fit a float; halving is exact
    on floats, so the quotient is half the float nearest to [value];
    [int] truncates towards zero. *)
Definition int_true_div2 (value : Z) : Result Z :=
  let m := round53 (Z.abs value) in
  if float_limit2 <=? m
  then Raise OverflowError
  else Ok (Z.quot (Z.sgn value * m) 2).

(** [value // next_guess]. *)
Definition floordiv (a b : Z) : Result Z :=
  if b =? 0
  then Raise ZeroDivisionError
  else Ok (a / b).

(** The loop test [next_guess > 1 and (value % next_guess)]: [and] does not
    evaluate the remainder unless [next_guess > 1], and a remainder is true
    when it is not 0. *)
Definition loop_test (value next_guess : Z) : bool :=
  (1 <? next_guess) && negb (value mod next_guess =? 0).

Definition inspect {A} (a : A) : {b : A | a = b} := exist _ a eq_refl.

(** [while next_guess > 1 and (value % next_guess): next_guess -= 1],
    yielding the final [next_guess]. *)
Equations? while_loop (value next_guess : Z) : Z
  by wf (Z.to_nat next_guess) lt :=
  while_loop value next_guess with inspect (loop_test value next_guess) := {
    | exist _ true _ => while_loop value (next_guess - 1);
    | exist _ false _ => next_guess }.
Proof.
  unfold loop_test in e. apply andb_prop in e. destruct e as [e _].
  apply Z.ltb_lt in e. lia.
Qed.

Definition long_factorize_raw {V} (offset base : Z) (verbose : bool)
  : M V (Z * Z * Z) :=
  let value := base + offset in
  finding <- lift (format_ints [base; offset; value]) ;;
  vprint verbose finding ;;;
  start <- lift (int_true_div2 value) ;;
  let next_guess := while_loop value start in
  let f1 := next_guess in
  f2 <- lift (floordiv value next_guess) ;;
  product <- lift (format_ints [f1 * f2; f1; f2]) ;;
  vprint verbose product ;;;
  ret (value, f1, f2).

Definition long_factorize {V} (offset base : Z) (verbose : bool)
  : M V ((Z * Z * Z) * Q) :=
  timed (fun '(o, b, vb) => long_factorize_raw o b vb) (offset, base, verbose).

(** The default of the keyword [base]. *)
Definition default_base : Z := 100000001.

(** What a call of [long_factorize] gives, the printing left out: the two
    f-strings are built in any case. *)
Definition factorize_outcome (offset base : Z) : Result (Z * Z * Z) :=
  let value := base + offset in
  match format_ints [base; offset; value] with
  | Raise e => Raise e
  | Ok _ =>
      match int_true_div2 value with
      | Raise e => Raise e
      | Ok start =>
          let f1 := while_loop value start in
          match floordiv value f1 with
          | Raise e => Raise e
          | Ok f2 =>
              match format_ints [f1 * f2; f1; f2] with
              | Raise e => Raise e
              | Ok _ => Ok (value, f1, f2)
              end
          end
      end
  end.

(** [value / 2] fits a float: no [OverflowError]. *)
Definition halves_to_float (value : Z) : Prop :=
  round53 (Z.abs value) < float_limit2.

(** ** Vocabulary of the statements *)

(** What a left-to-right traversal of outcomes yields: all the pairs, or the
    first exception met. *)
Fixpoint collect {A} (l : list (Result A)) : Result (list A) :=
  match l with
  | [] => Ok []
  | Raise e :: _ => Raise e
  | Ok a :: l' =>
      match collect l' with
      | Ok r => Ok (a :: r)
      | Raise e => Raise e
      end
  end.

(** The outcomes of the [n] tasks, by index. *)
Definition outcomes {V} (timed_fun : Adapter V) (n : Z) (verbose : bool)
  : list (Outcome V) :=
  map (fun i => call timed_fun i verbose) (range n).

Definition add_events {V} (w : World V) (evs : list (Event V)) : World V :=
  mkWorld (clock w) (now w) (completion w) (trace w ++ evs).

Definition workers_ok (max_workers : option Z) : bool :=
  match max_workers with
  | Some k => negb (k <=? 0)
  | None => true
  end.

(** The events of one dispatch whose pool was created. *)
Definition dispatch_events {V} (pool_type : PoolType) (max_workers : option Z)
    (n : Z) : list (Event V) :=
  EvPoolEnter pool_type max_workers :: map EvSubmit (range n) ++ [EvPoolExit].

(** An adapter obtained from a function of the repository decorated with
    [timed]: task [i] runs it in a worker that sees the world [worker i]. *)
Definition worker_adapter {V B} (name : string)
    (f : Z -> bool -> M V (B * Q)) (worker : Z -> World V) : Adapter B :=
  mkAdapter name (fun i verbose => fst (f i verbose (worker i))).

Definition bad_workers : Exn := ValueError "max_workers must be greater than 0".

(** The batch pair made of the outcomes taken in the given order, or the
    exception that ends the call. *)
Definition batches {V} (os : list (Outcome V)) : Result (list V * list Q) :=
  match collect os with
  | Ok rts => unpack_zip_star rts
  | Raise e => Raise e
  end.

(** The first component of what a function decorated with [timed] returns:
    the undecorated function's own return value. *)
Definition pair_of {B} (r : Result (B * Q)) : Result B :=
  match r with
  | Ok (b, _) => Ok b
  | Raise e => Raise e
  end.

Definition unpack_error : Exn :=
  ValueError "not enough values to unpack (expected 2, got 0)".

(** A wall clock that reads 5 and is then set back to 3. *)
Definition stepped_back : nat -> Q :=
  fun k => match k with O => 5%Q | S _ => 3%Q end.

(** The adapter raises [e] for a task of the batch. *)
Definition raised_by {V} (timed_fun : Adapter V) (n : Z) (verbose : bool)
    (e : Exn) : Prop :=
  exists j, 0 <= j < n /\ call timed_fun j verbose = Raise e.

(** The call ended in an exception.  When the executor accepts the worker
    count, it is an exception the adapter raised for a task of the batch, as
    it comes out [through] the code that collects the results; otherwise it
    is the executor's refusal. *)
Definition fails_with {V B} (timed_fun : Adapter V) (n : Z) (verbose : bool)
    (max_workers : option Z) (through : Exn -> Exn) (r : Result B) : Prop :=
  if workers_ok max_workers
  then exists e, raised_by timed_fun n verbose e /\ r = Raise (through e)
  else r = Raise bad_workers.

(** Nothing done to an exception on its way out. *)
Definition as_is (e : Exn) : Exn := e.

(** Two runs of an adapter agree on everything but the seconds: at each task
    index both return the same value, or both raise the same exception. *)
Definition same_value {V} (o1 o2 : Outcome V) : Prop :=
  match o1, o2 with
  | Ok (v1, _), Ok (v2, _) => v1 = v2
  | Raise e1, Raise e2 => e1 = e2
  | _, _ => False
  end.

Definition agree_on_values {V} (run1 run2 : Adapter V) (n : Z)
    (verbose : bool) : Prop :=
  forall i, 0 <= i < n -> same_value (call run1 i verbose) (call run2 i verbose).

(** The result batch of a dispatch, the seconds forgotten. *)
Definition result_batch {V} (r : Result ((list V * list Q) * Q))
  : Result (list V) :=
  match r with
  | Ok ((results, _), _) => Ok results
  | Raise e => Raise e
  end.

(** Sample adapters and a sample world.  [index_adapter] returns its index
    and reports 0 seconds; [failing_adapter] does the same but raises at
    index 1. *)
Definition index_adapter : Adapter Z :=
  mkAdapter "index_adapter" (fun i _ => Ok (i, 0%Q)).

Definition failing_adapter : Adapter Z :=
  mkAdapter "failing_adapter"
    (fun i _ => if i =? 1 then Raise (AdapterError i) else Ok (i, 0%Q)).

Definition quiet {V} : World V := mkWorld (fun _ => 0%Q) 0 [] [].

(** [long_factorize] with the keyword [base] fixed, as an adapter: task [i]
    runs in the world [worker i], with its own clock readings.  What the
    workers print is not part of the dispatcher's trace. *)
Definition factorize_adapter (base : Z) (worker : Z -> World Z)
  : Adapter (Z * Z * Z) :=
  worker_adapter "long_factorize"
    (fun i verbose => long_factorize i base verbose) worker.

(** An adapter that raises [StopIteration] at every index. *)
Definition stop_adapter : Adapter Z :=
  mkAdapter "stop_adapter" (fun _ _ => Raise StopIteration).

(** The result batch of an undecorated dispatch. *)
Definition values_of {V} (b : Result (list V * list Q)) : Result (list V) :=
  match b with
  | Ok (results, _) => Ok results
  | Raise e => Raise e
  end.

Definition nonneg_times (ts : list Q) : Prop := Forall (fun t => (0 <= t)%Q) ts.

(** What [display_results] does with what the dispatcher gives back. *)
Definition report {V} (out : Result ((list V * list Q) * Q) * World V)
  : Result unit * World V :=
  match out with
  | (Ok ((results, times), total_time), w') =>
      (Ok tt,
       add_events w' [EvPrintResults results;
                      EvPrintTaskTimes times (sum times);
                      EvPrintActualTime total_time])
  | (Raise e, w') => (Raise e, w')
  end.

(** A clock that never goes back. *)
Definition nondecreasing (clk : nat -> Q) : Prop :=
  forall j k, (j <= k)%nat -> (clk j <= clk k)%Q.

(** A computation that went from [w] to [w'] left the clock alone and did
    not undo any reading of it. *)
Definition keeps_clock {V} (w w' : World V) : Prop :=
  clock w' = clock w /\ (now w <= now w')%nat.

(** Integers up to this bound in absolute value are floats, and so are
    their halves: [value / 2] is then exact. *)
Definition exact_float_bound : Z := 2 ^ 53.

(** The triple [long_factorize] computes for [value] when the loop starts
    at [value // 2]. *)
Definition factor_triple (value : Z) : Z * Z * Z :=
  let f1 := while_loop value (value / 2) in
  (value, f1, value / f1).

(** * Properties *)

(** ** The monad and the executor primitives *)

Section Primitives.
Context {V : Type}.

Lemma add_events_nil (w : World V) : add_events w [] = w.
Proof. destruct w; unfold add_events; simpl. now rewrite app_nil_r. Qed.

Lemma add_events_app (w : World V) evs1 evs2 :
  add_events (add_events w evs1) evs2 = add_events w (evs1 ++ evs2).
Proof. unfold add_events; simpl. now rewrite app_assoc. Qed.

Lemma emit_spec (ev : Event V) w : emit ev w = (Ok tt, add_events w [ev]).
Proof. reflexivity. Qed.

Lemma mapM_submit pool (pfun : Z -> Outcome V) items w :
  mapM (submit pool pfun) items w =
  (Ok (map (fun i => mkFuture i (pfun i)) items),
   add_events w (map EvSubmit items)).
Proof.
  revert w. induction items as [|i items IH]; intro w; simpl.
  - unfold ret. now rewrite add_events_nil.
  - unfold bind at 1. unfold submit at 1. unfold bind at 1.
    rewrite emit_spec. unfold ret at 1. unfold bind at 1.
    rewrite IH. unfold ret. rewrite add_events_app. reflexivity.
Qed.

Lemma mapM_result (tasks : list (Future V)) w :
  mapM result tasks w = (collect (map fut_outcome tasks), w).
Proof.
  induction tasks as [|t tasks IH]; simpl; [reflexivity|].
  unfold bind at 1. unfold result at 1, lift.
  destruct (fut_outcome t) as [rt|e]; [|reflexivity].
  unfold bind. rewrite IH.
  now destruct (collect (map fut_outcome tasks)).
Qed.

Lemma mapM_yield_result (tasks : list (Future V)) w :
  mapM yield_result tasks w =
  (collect (map in_generator (map fut_outcome tasks)), w).
Proof.
  induction tasks as [|t tasks IH]; simpl; [reflexivity|].
  unfold bind at 1. unfold yield_result at 1, lift.
  destruct (fut_outcome t) as [rt|e]; [|reflexivity].
  unfold bind. rewrite IH. simpl.
  now destruct (collect (map in_generator (map fut_outcome tasks))).
Qed.

Lemma map_outcome_futures (a : Adapter V) vb items :
  map fut_outcome (map (fun i => mkFuture i (call a i vb)) items) =
  map (fun i => call a i vb) items.
Proof. rewrite map_map. reflexivity. Qed.

End Primitives.

(** ** What one dispatch does, in closed form *)

Section Dispatch.
Context {V : Type}.
Implicit Types (a : Adapter V) (w : World V) (n : Z).

Lemma new_pool_spec pt mw w :
  new_pool pt mw w =
  if workers_ok mw then (Ok (mkPool pt mw), w) else (Raise bad_workers, w).
Proof.
  unfold new_pool, workers_ok. destruct mw as [k|]; [|reflexivity].
  now destruct (k <=? 0).
Qed.

Lemma submit_ordered_spec a n pt mw vb w :
  submit_get_results_raw a n pt false mw vb w =
  if workers_ok mw
  then (batches (outcomes a n vb), add_events w (dispatch_events pt mw n))
  else (Raise bad_workers, w).
Proof.
  unfold submit_get_results_raw, with_pool.
  unfold bind at 1. rewrite new_pool_spec.
  destruct (workers_ok mw); [|reflexivity].
  unfold bind at 1. rewrite emit_spec. unfold finally.
  unfold bind at 1. rewrite mapM_submit.
  unfold bind at 1. rewrite mapM_result, map_outcome_futures.
  fold (outcomes a n vb). unfold batches, lift, dispatch_events.
  destruct (collect (outcomes a n vb));
    rewrite emit_spec, !add_events_app; reflexivity.
Qed.

Lemma map_results_spec a n pt mw vb w :
  map_results_raw a n pt mw vb w =
  if workers_ok mw
  then (batches (map in_generator (outcomes a n vb)),
        add_events w (dispatch_events pt mw n))
  else (Raise bad_workers, w).
Proof.
  unfold map_results_raw, with_pool, pool_map.
  unfold bind at 1. rewrite new_pool_spec.
  destruct (workers_ok mw); [|reflexivity].
  unfold bind at 1. rewrite emit_spec. unfold finally.
  unfold bind at 1. rewrite mapM_submit.
  unfold bind at 1. rewrite mapM_yield_result, map_outcome_futures.
  fold (outcomes a n vb). unfold batches, lift, dispatch_events.
  destruct (collect (map in_generator (outcomes a n vb)));
    rewrite emit_spec, !add_events_app; reflexivity.
Qed.

Lemma nth_middle_split {A} (l : list A) (j : nat) (d : A) :
  (j < List.length l)%nat ->
  firstn j l ++ nth j l d :: skipn (S j) l = l.
Proof.
  revert j. induction l as [|x l IH]; intros j Hj; simpl in Hj; [lia|].
  destruct j as [|j]; [reflexivity|].
  simpl. f_equal. apply IH. lia.
Qed.

Lemma completion_order_perm {A} (picks : list nat) (pending : list A) :
  Permutation (completion_order picks pending) pending.
Proof.
  remember (List.length pending) as m eqn:Hm.
  revert pending Hm picks.
  induction m as [|m IH]; intros pending Hm picks.
  - destruct pending; [|discriminate]. destruct picks; simpl; constructor.
  - destruct pending as [|x rest]; [discriminate|].
    destruct picks as [|k picks]; [reflexivity|].
    cbn [completion_order].
    set (l := x :: rest) in *.
    set (j := (k mod List.length l)%nat).
    assert (Hj : (j < List.length l)%nat)
      by (apply Nat.mod_upper_bound; rewrite <- Hm; discriminate).
    pose proof (nth_middle_split l j x Hj) as E.
    transitivity (nth j l x :: firstn j l ++ skipn (S j) l).
    + constructor. apply IH.
      rewrite length_app, length_firstn, length_skipn. lia.
    + transitivity (firstn j l ++ nth j l x :: skipn (S j) l).
      * apply Permutation_middle.
      * now rewrite E.
Qed.

Lemma completion_order_map {A B} (f : A -> B) picks (pending : list A) :
  completion_order picks (map f pending) =
  map f (completion_order picks pending).
Proof.
  revert pending. induction picks as [|k picks IH]; intro pending;
    [reflexivity|].
  destruct pending as [|x rest]; [reflexivity|].
  cbn [completion_order map]. rewrite <- (map_cons f x rest).
  rewrite length_map, firstn_map, skipn_map, <- map_app, IH.
  f_equal. apply map_nth.
Qed.

Lemma range_length n : List.length (range n) = Z.to_nat n.
Proof. unfold range. now rewrite length_map, length_seq. Qed.

Lemma submit_completed_spec a n pt mw vb w :
  submit_get_results_raw a n pt true mw vb w =
  if workers_ok mw
  then (batches (completion_order (completion w) (outcomes a n vb)),
        mkWorld (clock w) (now w) (skipn (Z.to_nat n) (completion w))
                (trace w ++ dispatch_events pt mw n))
  else (Raise bad_workers, w).
Proof.
  unfold submit_get_results_raw, with_pool.
  unfold bind at 1. rewrite new_pool_spec.
  destruct (workers_ok mw); [|reflexivity].
  unfold bind at 1. rewrite emit_spec. unfold finally.
  unfold bind at 1. rewrite mapM_submit.
  unfold bind at 1. unfold bind at 1. unfold as_completed at 1.
  rewrite mapM_result, <- completion_order_map, map_outcome_futures.
  fold (outcomes a n vb). rewrite length_map, range_length.
  unfold batches, lift, dispatch_events, emit, add_events.
  cbn [clock now completion trace].
  destruct (collect (completion_order (completion w) (outcomes a n vb)));
    cbn [clock now completion trace]; rewrite <- !app_assoc; reflexivity.
Qed.

End Dispatch.

(** ** The timing wrapper *)

Section Timed.
Context {V A B : Type}.

Lemma timed_spec (f : A -> M V B) args w :
  timed f args w =
  match f args (tick w) with
  | (Ok r, w') => (Ok (r, (reading w' - reading w)%Q), tick w')
  | (Raise e, w') => (Raise e, w')
  end.
Proof.
  unfold timed, bind, time, ret.
  now destruct (f args (tick w)) as [[r|e] w'].
Qed.

Lemma timed_pair_of (f : A -> M V B) args w :
  pair_of (fst (timed f args w)) = fst (f args (tick w)).
Proof.
  rewrite timed_spec. now destruct (f args (tick w)) as [[r|e] w'].
Qed.

(** C6, as the code has it.  [timed f] reads the clock, runs [f] in the
    world that follows that reading, reads the clock again in the world [f]
    leaves, and returns [f]'s result paired with the difference of the two
    readings; when [f] raises, [timed f] raises the same exception and the
    second reading is never taken.  The clock is [time.time()]: the two
    readings are used as they come. *)
Theorem timed_contract (f : A -> M V B) args w :
  match f args (tick w) with
  | (Ok r, w') =>
      timed f args w = (Ok (r, (reading w' - reading w)%Q), tick w')
  | (Raise e, w') => timed f args w = (Raise e, w')
  end.
Proof.
  rewrite timed_spec. now destruct (f args (tick w)) as [[r|e] w'].
Qed.

End Timed.

(** C6 as stated fails: the clock of [timed] is the wall clock, not a
    monotonic one.  When it is set back from 5 to 3 during the call, [timed]
    reports the elapsed time 3 - 5, a negative number of seconds, which no
    monotonic clock yields. *)
Lemma timed_clock_not_monotonic :
  let w : World Z := mkWorld stepped_back 0 [] [] in
  fst (timed (fun x : Z => ret x) 7 w) = Ok (7, (3 - 5)%Q)
  /\ (reading (tick w) < reading w)%Q
  /\ (3 - 5 < 0)%Q.
Proof.
  cbv zeta. split; [reflexivity|]. split; reflexivity.
Qed.

(** ** The dispatcher *)

Section Dispatcher.
Context {V : Type}.
Implicit Types (a : Adapter V) (w : World V) (n : Z).

Lemma submit_pair a n pt ac mw vb w :
  pair_of (fst (submit_get_results a n pt ac mw vb w)) =
  fst (submit_get_results_raw a n pt ac mw vb (tick w)).
Proof. unfold submit_get_results. now rewrite timed_pair_of. Qed.

Lemma map_pair a n pt mw vb w :
  pair_of (fst (map_results a n pt mw vb w)) =
  fst (map_results_raw a n pt mw vb (tick w)).
Proof. unfold map_results. now rewrite timed_pair_of. Qed.

Lemma outcomes_zero a vb : outcomes a 0 vb = [].
Proof. reflexivity. Qed.

(** C1 at [n = 0].  With no task there is no pair to transpose, so the
    unpacking of [zip] into [results, times] raises [ValueError]: neither
    ordered submit-and-collect nor map-and-collect returns the two batches
    of length 0. *)
Theorem ordered_dispatch_zero_raises a pt vb w :
  fst (submit_get_results a 0 pt false None vb w) = Raise unpack_error
  /\ fst (map_results a 0 pt None vb w) = Raise unpack_error.
Proof.
  unfold submit_get_results, map_results. rewrite !timed_spec.
  rewrite submit_ordered_spec, map_results_spec. split; reflexivity.
Qed.

(** C2 on the code.  For [n = 0] the pool is entered and left and no task
    is submitted, in both collection modes and in map mode; but the call
    does not return empty batches: it raises the [ValueError] of the failed
    unpacking (or, when [max_workers] is not positive, the executor's). *)
Theorem dispatch_zero_raises a pt ac mw vb w :
  submit_get_results_raw a 0 pt ac mw vb w =
    (if workers_ok mw
     then (Raise unpack_error,
           add_events w [EvPoolEnter pt mw; EvPoolExit])
     else (Raise bad_workers, w))
  /\ map_results_raw a 0 pt mw vb w =
    (if workers_ok mw
     then (Raise unpack_error,
           add_events w [EvPoolEnter pt mw; EvPoolExit])
     else (Raise bad_workers, w)).
Proof.
  split; [|now rewrite map_results_spec].
  destruct ac; [|now rewrite submit_ordered_spec].
  rewrite submit_completed_spec. destruct (workers_ok mw); [|reflexivity].
  rewrite outcomes_zero. destruct w as [c k picks tr].
  now destruct picks.
Qed.

(** *** Outcome lists *)

Lemma range_In n i : In i (range n) <-> 0 <= i < n.
Proof.
  unfold range. rewrite in_map_iff. split.
  - intros [k [<- Hk]]. apply in_seq in Hk. lia.
  - intros Hi. exists (Z.to_nat i). split; [lia|]. apply in_seq. lia.
Qed.

Lemma range_nth_error n i :
  0 <= i < n -> nth_error (range n) (Z.to_nat i) = Some i.
Proof.
  intro Hi. unfold range.
  rewrite nth_error_map, nth_error_seq.
  destruct (Nat.ltb_spec (Z.to_nat i) (Z.to_nat n)) as [_|H]; [|lia].
  simpl. f_equal. lia.
Qed.

Lemma collect_map_Ok {A} (xs : list A) : collect (map Ok xs) = Ok xs.
Proof. induction xs as [|x xs IH]; simpl; [reflexivity|now rewrite IH]. Qed.

Lemma collect_Ok_inv {A} (l : list (Result A)) xs :
  collect l = Ok xs -> l = map Ok xs.
Proof.
  revert xs. induction l as [|[x|e] l IH]; intros xs H; simpl in H.
  - now inversion H.
  - destruct (collect l) as [r|e]; [|discriminate].
    inversion H; subst. simpl. f_equal. now apply IH.
  - discriminate.
Qed.

Lemma collect_Raise {A} (l : list (Result A)) e :
  In (Raise e) l -> exists e', collect l = Raise e' /\ In (Raise e') l.
Proof.
  induction l as [|[x|e0] l IH]; intro H; simpl in *.
  - contradiction.
  - destruct H as [H|H]; [discriminate|].
    destruct (IH H) as [e' [E Hin]]. exists e'. rewrite E. auto.
  - exists e0. auto.
Qed.

Lemma split_fst_snd {A B} (l : list (A * B)) :
  split l = (map fst l, map snd l).
Proof.
  induction l as [|[x y] l IH]; simpl; [reflexivity|now rewrite IH].
Qed.

Lemma combine_fst_snd {A B} (l : list (A * B)) :
  combine (map fst l) (map snd l) = l.
Proof.
  induction l as [|[x y] l IH]; simpl; [reflexivity|now rewrite IH].
Qed.

Lemma batches_Ok_inv (os : list (Outcome V)) rs ts :
  batches os = Ok (rs, ts) ->
  exists rts, os = map Ok rts /\ rts <> [] /\
              rs = map fst rts /\ ts = map snd rts.
Proof.
  unfold batches. destruct (collect os) as [rts|e] eqn:E; [|discriminate].
  apply collect_Ok_inv in E. intro H. exists rts.
  destruct rts as [|rt rts]; [discriminate|].
  unfold unpack_zip_star in H. rewrite split_fst_snd in H.
  inversion H. repeat split; auto. discriminate.
Qed.

Lemma batches_map_Ok (rts : list (V * Q)) :
  rts <> [] -> batches (map Ok rts) = Ok (map fst rts, map snd rts).
Proof.
  intro H. unfold batches. rewrite collect_map_Ok.
  destruct rts; [contradiction|].
  unfold unpack_zip_star. now rewrite split_fst_snd.
Qed.

Lemma batches_Raise a n vb (os : list (Outcome V)) i e :
  Permutation (outcomes a n vb) os ->
  0 <= i < n -> call a i vb = Raise e ->
  exists e', batches os = Raise e' /\
             exists j, 0 <= j < n /\ call a j vb = Raise e'.
Proof.
  intros HP Hi He.
  assert (Hin : In (Raise e) os).
  { apply (Permutation_in _ HP). unfold outcomes. apply in_map_iff.
    exists i. split; [exact He|now apply range_In]. }
  destruct (collect_Raise _ _ Hin) as [e' [E Hin']].
  exists e'. unfold batches. rewrite E. split; [reflexivity|].
  apply (Permutation_in _ (Permutation_sym HP)) in Hin'.
  unfold outcomes in Hin'. apply in_map_iff in Hin'.
  destruct Hin' as [j [Hj Hr]]. exists j. split; [now apply range_In|auto].
Qed.

Lemma batches_perm (os os' : list (Outcome V)) rs ts :
  Permutation os os' -> batches os = Ok (rs, ts) ->
  exists rs' ts',
    batches os' = Ok (rs', ts') /\ Permutation rs rs' /\ Permutation ts ts'
    /\ Permutation (combine rs ts) (combine rs' ts').
Proof.
  intros HP H. apply batches_Ok_inv in H.
  destruct H as [rts [-> [Hne [-> ->]]]].
  apply Permutation_sym, Permutation_map_inv in HP.
  destruct HP as [rts' [-> HP]].
  exists (map fst rts'), (map snd rts').
  assert (Hne' : rts' <> [])
    by (intros ->; apply Permutation_sym, Permutation_nil in HP;
        contradiction).
  rewrite (batches_map_Ok _ Hne'), !combine_fst_snd.
  repeat split; auto using Permutation_map.
Qed.

(** *** The generator of [Executor.map] *)

Lemma collect_in_generator {A} (os : list (Result A)) :
  collect (map in_generator os) = in_generator (collect os).
Proof.
  induction os as [|[x|e] os IH]; simpl; [reflexivity| |reflexivity].
  rewrite IH. now destruct (collect os).
Qed.

Lemma batches_in_generator (os : list (Outcome V)) :
  batches (map in_generator os) = in_generator (batches os).
Proof.
  unfold batches. rewrite collect_in_generator.
  destruct (collect os) as [rts|e]; [|reflexivity].
  now destruct rts.
Qed.

Lemma in_generator_map_Ok {A} (xs : list A) :
  map in_generator (map Ok xs) = map Ok xs.
Proof. rewrite map_map. reflexivity. Qed.

(** C3, as the code has it.  Map-and-collect gives what ordered
    submit-and-collect gives, seen through the generator of [Executor.map]:
    the same two batches when the call returns, the same exception when it
    raises, except that a [StopIteration] raised by a task reaches the
    caller of [map_results] as [RuntimeError]; with and without the [timed]
    decoration, for every adapter, task count, pool kind, worker bound,
    verbosity and world. *)
Theorem map_results_follows_ordered_submit a n pt mw vb w :
  fst (map_results_raw a n pt mw vb w) =
    in_generator (fst (submit_get_results_raw a n pt false mw vb w))
  /\ fst (map_results a n pt mw vb w) =
    in_generator (fst (submit_get_results a n pt false mw vb w)).
Proof.
  assert (E : forall w', fst (map_results_raw a n pt mw vb w') =
              in_generator
                (fst (submit_get_results_raw a n pt false mw vb w'))).
  { intro w'. rewrite map_results_spec, submit_ordered_spec.
    destruct (workers_ok mw); [|reflexivity].
    cbn [fst]. apply batches_in_generator. }
  split; [apply E|].
  unfold map_results, submit_get_results. rewrite !timed_spec.
  cbv beta iota. specialize (E (tick w)).
  rewrite map_results_spec, submit_ordered_spec in *.
  destruct (workers_ok mw); [|reflexivity].
  cbn [fst] in E. rewrite E.
  now destruct (batches (outcomes a n vb)).
Qed.

(** *** Failure and teardown *)

Lemma fails_with_timed {A B} a n vb mw through (f : A -> M V B) args w :
  fails_with a n vb mw through (fst (f args (tick w))) ->
  fails_with a n vb mw through (fst (timed f args w)).
Proof.
  unfold fails_with. rewrite timed_spec.
  destruct (f args (tick w)) as [[r|e0] w']; cbn [fst].
  - destruct (workers_ok mw); [intros [e [_ E]]|intro E]; discriminate.
  - destruct (workers_ok mw).
    + intros [e [R E]]. exists e. split; [exact R|]. now inversion E.
    + intro E. now inversion E.
Qed.

Lemma raw_dispatch_fails a n pt mw vb w i e :
  0 <= i < n -> call a i vb = Raise e ->
  fails_with a n vb mw as_is
    (fst (submit_get_results_raw a n pt false mw vb w))
  /\ fails_with a n vb mw as_is
    (fst (submit_get_results_raw a n pt true mw vb w))
  /\ fails_with a n vb mw generator_exit
    (fst (map_results_raw a n pt mw vb w)).
Proof.
  intros Hi He. unfold fails_with.
  rewrite submit_ordered_spec, submit_completed_spec, map_results_spec.
  destruct (workers_ok mw); [|repeat split; reflexivity].
  cbn [fst]. rewrite batches_in_generator.
  destruct (batches_Raise a n vb _ i e (Permutation_refl _) Hi He)
    as [e1 [E1 R1]].
  destruct (batches_Raise a n vb
              (completion_order (completion w) (outcomes a n vb)) i e
              (Permutation_sym (completion_order_perm _ _)) Hi He)
    as [e2 [E2 R2]].
  rewrite E1, E2. split; [|split].
  - exists e1. split; [exact R1|reflexivity].
  - exists e2. split; [exact R2|reflexivity].
  - exists e1. split; [exact R1|reflexivity].
Qed.

(** Whenever the executor accepts the worker count, the pool is entered,
    the [n] tasks are submitted in index order, and the pool is shut down,
    whether the call returns or raises. *)
Lemma pool_torn_down a n pt ac mw vb w :
  workers_ok mw = true ->
  trace (snd (submit_get_results_raw a n pt ac mw vb w)) =
    trace w ++ dispatch_events pt mw n
  /\ trace (snd (map_results_raw a n pt mw vb w)) =
    trace w ++ dispatch_events pt mw n.
Proof.
  intro H. rewrite map_results_spec. destruct ac.
  - rewrite submit_completed_spec, H. split; reflexivity.
  - rewrite submit_ordered_spec, H. split; reflexivity.
Qed.

(** C4, as the code has it.  If the adapter raises for some index of the
    batch, then ordered submit-and-collect, completion-order
    submit-and-collect and map-and-collect all end in an exception, for
    either pool kind: no batch, partial or not, is returned.  When the
    executor accepts the worker count, the exception that reaches the
    caller of [submit_get_results] is one the adapter raised for an index
    of the batch, unchanged; the one that reaches the caller of
    [map_results] is such an exception as it leaves the generator of
    [Executor.map], that is unchanged unless it is [StopIteration].  When
    the executor refuses the worker count, the exception is its
    [ValueError]. *)
Theorem adapter_failure_fails_dispatch a n pt mw vb w i e :
  0 <= i < n -> call a i vb = Raise e ->
  fails_with a n vb mw as_is
    (fst (submit_get_results a n pt false mw vb w))
  /\ fails_with a n vb mw as_is
    (fst (submit_get_results a n pt true mw vb w))
  /\ fails_with a n vb mw generator_exit
    (fst (map_results a n pt mw vb w)).
Proof.
  intros Hi He.
  destruct (raw_dispatch_fails a n pt mw vb (tick w) i e Hi He)
    as [H1 [H2 H3]].
  unfold submit_get_results, map_results.
  split; [|split]; apply fails_with_timed; assumption.
Qed.

(** *** The reporting facade *)

(** C5.  For a [submit_type] that is neither ['submit'] nor ['map'],
    [display_results] prints its first line and raises the [ValueError]
    naming the value.  Nothing else happens: no pool is created, no task is
    submitted, and the outcome does not depend on what the adapter would
    do when called. *)
Theorem display_results_rejects_style a n pt st ac mw vb w :
  st <> "submit"%string -> st <> "map"%string ->
  display_results a n pt st ac mw vb w =
    (Raise (ValueError ("Unrecognized value for submit_type: " ++ st)%string),
     add_events w [EvPrintRunning (adapter_name a)])
  /\ forall spy, adapter_name spy = adapter_name a ->
       display_results spy n pt st ac mw vb w =
       display_results a n pt st ac mw vb w.
Proof.
  intros H1 H2.
  apply String.eqb_neq in H1. apply String.eqb_neq in H2.
  assert (E : forall b, display_results b n pt st ac mw vb w =
    (Raise (ValueError ("Unrecognized value for submit_type: " ++ st)%string),
     add_events w [EvPrintRunning (adapter_name b)])).
  { intro b. unfold display_results. rewrite H1, H2.
    unfold bind at 1. rewrite emit_spec. reflexivity. }
  split; [apply E|]. intros spy Hn. now rewrite !E, Hn.
Qed.

(** *** Completion order *)

(** C7.  For the same adapter and task count, whenever either collection
    mode of [submit_get_results] returns, so does the other, and the
    completion-order batches are permutations of the ordered ones: the
    results, the times, and the (result, time) pairs.  The two calls may run
    in different worlds. *)
Theorem completion_batch_permutes_ordered a n pt mw vb w w' :
  (forall rs ts,
     pair_of (fst (submit_get_results a n pt false mw vb w)) = Ok (rs, ts) ->
     exists rs' ts',
       pair_of (fst (submit_get_results a n pt true mw vb w')) = Ok (rs', ts')
       /\ Permutation rs rs' /\ Permutation ts ts'
       /\ Permutation (combine rs ts) (combine rs' ts'))
  /\ (forall rs' ts',
     pair_of (fst (submit_get_results a n pt true mw vb w')) = Ok (rs', ts') ->
     exists rs ts,
       pair_of (fst (submit_get_results a n pt false mw vb w)) = Ok (rs, ts)
       /\ Permutation rs' rs /\ Permutation ts' ts
       /\ Permutation (combine rs' ts') (combine rs ts)).
Proof.
  rewrite !submit_pair, submit_ordered_spec, submit_completed_spec.
  destruct (workers_ok mw); [|split; intros ? ? H; discriminate H].
  cbn [fst completion tick].
  split; intros xs ys H.
  - apply (batches_perm (outcomes a n vb) _ xs ys); [|exact H].
    apply Permutation_sym, completion_order_perm.
  - apply (batches_perm
             (completion_order (completion w') (outcomes a n vb)) _ xs ys);
      [|exact H].
    apply completion_order_perm.
Qed.

End Dispatcher.

(** C3 as stated fails.  For the adapter that raises [StopIteration], one
    task: ordered submit-and-collect raises [StopIteration], map-and-collect
    raises [RuntimeError]. *)
Lemma map_results_differs_from_submit :
  fst (submit_get_results stop_adapter 1 ThreadPoolExecutor false None false
         quiet) = Raise StopIteration
  /\ fst (map_results stop_adapter 1 ThreadPoolExecutor None false quiet)
     = Raise (RuntimeError "generator raised StopIteration")
  /\ map_results_raw stop_adapter 1 ThreadPoolExecutor None false quiet
     <> submit_get_results_raw stop_adapter 1 ThreadPoolExecutor false None
          false quiet.
Proof.
  split; [reflexivity|]. split; [reflexivity|]. discriminate.
Qed.

(** C4 as stated fails for [map_results]: the call fails, but the error
    that reaches the caller need not be the adapter's.  The adapter that
    raises [StopIteration] at both indices of a batch of two never raises
    [RuntimeError], and [RuntimeError] is what the caller gets. *)
Lemma map_results_replaces_adapter_error :
  fst (map_results stop_adapter 2 ProcessPoolExecutor None false quiet)
    = Raise (RuntimeError "generator raised StopIteration")
  /\ forall i vb,
       call stop_adapter i vb
       <> Raise (RuntimeError "generator raised StopIteration").
Proof.
  split; [reflexivity|]. intros i vb. discriminate.
Qed.

Lemma adapter_failure_fails_dispatch_witness :
  fails_with failing_adapter 3 false None as_is
    (fst (submit_get_results failing_adapter 3 ThreadPoolExecutor false None
            false quiet))
  /\ fails_with failing_adapter 3 false None as_is
    (fst (submit_get_results failing_adapter 3 ThreadPoolExecutor true None
            false quiet))
  /\ fails_with failing_adapter 3 false None generator_exit
    (fst (map_results failing_adapter 3 ThreadPoolExecutor None false quiet)).
Proof.
  apply (adapter_failure_fails_dispatch failing_adapter 3 ThreadPoolExecutor
           None false quiet 1 (AdapterError 1)).
  - lia.
  - reflexivity.
Defined.

Lemma display_results_rejects_style_witness :
  fst (display_results index_adapter 5 ThreadPoolExecutor "both" false None
         false quiet)
  = Raise (ValueError "Unrecognized value for submit_type: both").
Proof.
  destruct (display_results_rejects_style index_adapter 5 ThreadPoolExecutor
              "both" false None false quiet) as [E _].
  - discriminate.
  - discriminate.
  - rewrite E. reflexivity.
Defined.

Lemma completion_batch_permutes_ordered_witness :
  exists rs' ts',
    pair_of (fst (submit_get_results index_adapter 3 ProcessPoolExecutor true
                    None false (mkWorld (fun _ => 0%Q) 0 [2%nat] [])))
    = Ok (rs', ts')
    /\ Permutation [0; 1; 2] rs'.
Proof.
  destruct (completion_batch_permutes_ordered index_adapter 3
              ProcessPoolExecutor None false quiet
              (mkWorld (fun _ => 0%Q) 0 [2%nat] [])) as [H _].
  destruct (H [0; 1; 2] [0%Q; 0%Q; 0%Q] eq_refl) as [rs' [ts' [E [P _]]]].
  exists rs', ts'. split; [exact E|exact P].
Defined.

(** ** Index alignment, times, and repeated dispatch *)

Section Batches.
Context {V : Type}.
Implicit Types (a run : Adapter V) (w : World V) (n : Z).

Lemma result_batch_pair_of (r : Result ((list V * list Q) * Q)) :
  result_batch r = values_of (pair_of r).
Proof. now destruct r as [[[rs ts] t]|e]. Qed.

Lemma outcomes_all_Ok a n vb (val : Z -> V) (sec : Z -> Q) :
  (forall i, 0 <= i < n -> call a i vb = Ok (val i, sec i)) ->
  outcomes a n vb = map Ok (map (fun i => (val i, sec i)) (range n)).
Proof.
  intro H. unfold outcomes. rewrite map_map.
  apply map_ext_in. intros i Hi. apply H, range_In, Hi.
Qed.

Lemma range_nonempty n : 1 <= n -> range n <> [].
Proof.
  intros Hn E. apply (f_equal (@List.length Z)) in E.
  rewrite range_length in E. simpl in E. lia.
Qed.

(** For at least one task, a worker count the executor accepts and an
    adapter that returns at every index, ordered submit-and-collect and
    map-and-collect return the adapter's values and seconds, by index. *)
Lemma ordered_dispatch_returns a n pt mw vb w (val : Z -> V) (sec : Z -> Q) :
  1 <= n -> workers_ok mw = true ->
  (forall i, 0 <= i < n -> call a i vb = Ok (val i, sec i)) ->
  pair_of (fst (submit_get_results a n pt false mw vb w)) =
    Ok (map val (range n), map sec (range n))
  /\ pair_of (fst (map_results a n pt mw vb w)) =
    Ok (map val (range n), map sec (range n)).
Proof.
  intros Hn Hw H.
  rewrite submit_pair, map_pair, submit_ordered_spec, map_results_spec, Hw.
  cbn [fst]. rewrite (outcomes_all_Ok a n vb val sec H).
  rewrite in_generator_map_Ok, batches_map_Ok, !map_map.
  - split; reflexivity.
  - intro E. apply map_eq_nil in E. now apply (range_nonempty n Hn).
Qed.

Lemma map_range_nth_error {B} (g : Z -> B) n i :
  0 <= i < n -> nth_error (map g (range n)) (Z.to_nat i) = Some (g i).
Proof.
  intro Hi. now rewrite nth_error_map, range_nth_error.
Qed.

(** C8, as the code has it.  For at least one task and an adapter that
    returns at every index, ordered submit-and-collect and map-and-collect
    return a time batch of length [n] whose [i]-th element is the seconds
    the adapter reported for index [i].  The dispatcher copies those
    seconds and does not look at them: the batch is non-negative, in the
    three modes, when the reported seconds are. *)
Theorem time_batch_reports_adapter a n pt mw vb w (val : Z -> V) (sec : Z -> Q) :
  1 <= n -> workers_ok mw = true ->
  (forall i, 0 <= i < n -> call a i vb = Ok (val i, sec i)) ->
  exists rs ts,
    pair_of (fst (submit_get_results a n pt false mw vb w)) = Ok (rs, ts)
    /\ pair_of (fst (map_results a n pt mw vb w)) = Ok (rs, ts)
    /\ List.length ts = Z.to_nat n
    /\ (forall i, 0 <= i < n -> nth_error ts (Z.to_nat i) = Some (sec i))
    /\ ((forall i, 0 <= i < n -> (0 <= sec i)%Q) ->
        nonneg_times ts
        /\ forall w' rs' ts',
             pair_of (fst (submit_get_results a n pt true mw vb w'))
               = Ok (rs', ts') ->
             nonneg_times ts').
Proof.
  intros Hn Hw H.
  destruct (ordered_dispatch_returns a n pt mw vb w val sec Hn Hw H)
    as [E1 E2].
  exists (map val (range n)), (map sec (range n)).
  split; [exact E1|]. split; [exact E2|].
  split; [now rewrite length_map, range_length|].
  split; [intros i Hi; now apply map_range_nth_error|].
  intro Hpos.
  assert (Hts : nonneg_times (map sec (range n))).
  { unfold nonneg_times. apply Forall_forall. intros t Ht.
    apply in_map_iff in Ht. destruct Ht as [i [<- Hi]].
    apply Hpos, range_In, Hi. }
  split; [exact Hts|].
  intros w' rs' ts' E'.
  rewrite submit_pair, submit_completed_spec, Hw in E'. cbn [fst] in E'.
  destruct (batches_perm _ (outcomes a n vb) rs' ts'
              (completion_order_perm _ _) E') as [rs [ts [E [_ [P _]]]]].
  rewrite (outcomes_all_Ok a n vb val sec H), batches_map_Ok, !map_map in E.
  - inversion E; subst. unfold nonneg_times.
    apply (Permutation_Forall (Permutation_sym P)), Hts.
  - intro E0. apply map_eq_nil in E0. now apply (range_nonempty n Hn).
Qed.

Lemma collect_same_value (os1 os2 : list (Outcome V)) :
  Forall2 same_value os1 os2 ->
  match collect os1, collect os2 with
  | Ok l1, Ok l2 => map fst l1 = map fst l2
  | Raise e1, Raise e2 => e1 = e2
  | _, _ => False
  end.
Proof.
  induction 1 as [|o1 o2 os1 os2 Ho _ IH]; [reflexivity|].
  destruct o1 as [[v1 t1]|e1], o2 as [[v2 t2]|e2]; simpl in *;
    try contradiction; [|exact Ho].
  destruct (collect os1) as [l1|e1], (collect os2) as [l2|e2];
    try contradiction; [|exact IH].
  simpl. now rewrite Ho, IH.
Qed.

Lemma batches_same_value (os1 os2 : list (Outcome V)) :
  Forall2 same_value os1 os2 ->
  values_of (batches os1) = values_of (batches os2).
Proof.
  intro H. apply collect_same_value in H. unfold batches.
  destruct (collect os1) as [l1|e1], (collect os2) as [l2|e2];
    try contradiction; [|now subst].
  destruct l1 as [|p1 l1], l2 as [|p2 l2]; try discriminate; [reflexivity|].
  unfold unpack_zip_star. rewrite !split_fst_snd.
  unfold values_of. now rewrite H.
Qed.

Lemma outcomes_agree run1 run2 n vb :
  agree_on_values run1 run2 n vb ->
  Forall2 same_value (outcomes run1 n vb) (outcomes run2 n vb).
Proof.
  intro H. unfold outcomes.
  assert (G : forall l, (forall i, In i l -> 0 <= i < n) ->
    Forall2 same_value (map (fun i => call run1 i vb) l)
                       (map (fun i => call run2 i vb) l)).
  { induction l as [|i l IH]; intro Hl; simpl; constructor.
    - apply H, Hl. now left.
    - apply IH. intros j Hj. apply Hl. now right. }
  apply G. intros i Hi. now apply range_In.
Qed.

Lemma values_of_in_generator (b : Result (list V * list Q)) :
  values_of (in_generator b) = in_generator (values_of b).
Proof. now destruct b as [[rs ts]|e]. Qed.

(** C9, as the code has it.  When two runs of the adapter agree on the
    values (the seconds may differ), two dispatches with the same task
    count, pool kind and worker bound give the same result batch, or raise
    the same exception, in ordered submit mode and in map mode.  In
    completion-order mode two result batches are permutations of each
    other. *)
Theorem deterministic_adapter_repeats run1 run2 n pt mw vb w1 w2 :
  agree_on_values run1 run2 n vb ->
  result_batch (fst (submit_get_results run1 n pt false mw vb w1)) =
    result_batch (fst (submit_get_results run2 n pt false mw vb w2))
  /\ result_batch (fst (map_results run1 n pt mw vb w1)) =
    result_batch (fst (map_results run2 n pt mw vb w2))
  /\ forall rs1 rs2,
       result_batch (fst (submit_get_results run1 n pt true mw vb w1))
         = Ok rs1 ->
       result_batch (fst (submit_get_results run2 n pt true mw vb w2))
         = Ok rs2 ->
       Permutation rs1 rs2.
Proof.
  intro H. apply outcomes_agree, batches_same_value in H.
  rewrite !result_batch_pair_of, !submit_pair, !map_pair.
  rewrite !submit_ordered_spec, !map_results_spec, !submit_completed_spec.
  destruct (workers_ok mw); cbn [fst completion tick];
    [|repeat split; intros; discriminate].
  split; [exact H|].
  split; [now rewrite !batches_in_generator, !values_of_in_generator, H|].
  intros rs1 rs2 E1 E2.
  destruct (batches (completion_order (completion w1) (outcomes run1 n vb)))
    as [[xs1 ts1]|] eqn:B1; [|discriminate].
  destruct (batches (completion_order (completion w2) (outcomes run2 n vb)))
    as [[xs2 ts2]|] eqn:B2; [|discriminate].
  simpl in E1, E2. inversion E1; inversion E2; subst.
  destruct (batches_perm _ (outcomes run1 n vb) rs1 ts1
              (completion_order_perm _ _) B1) as [ys1 [us1 [F1 [P1 _]]]].
  destruct (batches_perm _ (outcomes run2 n vb) rs2 ts2
              (completion_order_perm _ _) B2) as [ys2 [us2 [F2 [P2 _]]]].
  rewrite F1, F2 in H. simpl in H. inversion H; subst.
  now rewrite P1, P2.
Qed.

End Batches.

(** The two end-to-end scenarios of the dispatcher: the adapter returning
    its index, five tasks, ordered collection; and the adapter returning the
    square of its index, four tasks, map mode on a thread pool. *)
Example scenario_ordered_indices :
  pair_of (fst (submit_get_results index_adapter 5 ThreadPoolExecutor false
                  None false quiet))
  = Ok ([0; 1; 2; 3; 4], [0%Q; 0%Q; 0%Q; 0%Q; 0%Q]).
Proof. reflexivity. Qed.

Example scenario_map_squares :
  pair_of (fst (map_results
                  (mkAdapter "square" (fun i _ => Ok (i * i, 0%Q)))
                  4 ThreadPoolExecutor None false quiet))
  = Ok ([0; 1; 4; 9], [0%Q; 0%Q; 0%Q; 0%Q]).
Proof. reflexivity. Qed.

(** C8 as stated fails on its first clause.  [long_factorize] is decorated
    with [timed]; dispatched for one task while the wall clock is set back
    from 5 to 3, it reports 3 - 5 seconds, and the time batch holds that
    negative number. *)
Lemma time_batch_negative :
  fst (submit_get_results
         (factorize_adapter 33 (fun _ => mkWorld stepped_back 0 [] [])) 1
         ThreadPoolExecutor false None false quiet)
  = Ok ([(33, 11, 3)], [(3 - 5)%Q], (0 - 0)%Q)
  /\ ~ nonneg_times [(3 - 5)%Q].
Proof.
  split; [reflexivity|].
  intro H. inversion H as [|t ts Ht _]. now apply Ht.
Qed.

Lemma time_batch_reports_adapter_witness :
  exists rs ts,
    pair_of (fst (submit_get_results index_adapter 5 ThreadPoolExecutor false
                    None false quiet)) = Ok (rs, ts)
    /\ nth_error ts 3 = Some 0%Q
    /\ nonneg_times ts.
Proof.
  destruct (time_batch_reports_adapter index_adapter 5 ThreadPoolExecutor
              None false quiet (fun i => i) (fun _ => 0%Q))
    as [rs [ts [E [_ [_ [Hn Hp]]]]]].
  - lia.
  - reflexivity.
  - intros i _. reflexivity.
  - exists rs, ts. split; [exact E|]. split.
    + apply (Hn 3). lia.
    + apply Hp. intros i _. apply Qle_refl.
Defined.

(** C9 as stated fails in completion-order mode.  The adapter that returns
    its index is dispatched twice for two tasks; the tasks finish in
    submission order the first time and in the reverse order the second,
    and the result batches differ. *)
Lemma completion_order_not_repeatable :
  result_batch (fst (submit_get_results index_adapter 2 ThreadPoolExecutor
                       true None false quiet)) = Ok [0; 1]
  /\ result_batch (fst (submit_get_results index_adapter 2 ThreadPoolExecutor
                       true None false (mkWorld (fun _ => 0%Q) 0 [1%nat] [])))
     = Ok [1; 0]
  /\ [0; 1] <> [1; 0].
Proof.
  split; [reflexivity|]. split; [reflexivity|discriminate].
Qed.

Lemma deterministic_adapter_repeats_witness :
  result_batch (fst (submit_get_results index_adapter 5 ThreadPoolExecutor
                       false None false quiet)) =
  result_batch (fst (submit_get_results
                       (mkAdapter "index_adapter" (fun i _ => Ok (i, 1%Q)))
                       5 ThreadPoolExecutor false None false
                       (mkWorld (fun _ => 2%Q) 7 [] []))).
Proof.
  apply (deterministic_adapter_repeats index_adapter
           (mkAdapter "index_adapter" (fun i _ => Ok (i, 1%Q)))
           5 ThreadPoolExecutor None false quiet
           (mkWorld (fun _ => 2%Q) 7 [] [])).
  intros i _. reflexivity.
Defined.

(** ** The factorising workload *)

Section Factorize.
Context {V : Type}.

Lemma while_loop_step value next_guess :
  while_loop value next_guess =
  if loop_test value next_guess
  then while_loop value (next_guess - 1)
  else next_guess.
Proof.
  apply (while_loop_elim
           (fun value next_guess r =>
              r = if loop_test value next_guess
                  then while_loop value (next_guess - 1)
                  else next_guess)).
  - intros v g e _ _. now rewrite e.
  - intros v g e _. now rewrite e.
Qed.

(** The loop leaves with its test false; from a start of at least 1 it stays
    between 1 and the start, and from a start of at most 1 it does not
    move. *)
Lemma while_loop_exit value next_guess :
  loop_test value (while_loop value next_guess) = false
  /\ (1 <= next_guess -> 1 <= while_loop value next_guess <= next_guess)
  /\ (next_guess <= 1 -> while_loop value next_guess = next_guess).
Proof.
  apply (while_loop_elim
           (fun value next_guess r =>
              loop_test value r = false
              /\ (1 <= next_guess -> 1 <= r <= next_guess)
              /\ (next_guess <= 1 -> r = next_guess))).
  - intros v g e [IH1 [IH2 IH3]] _.
    unfold loop_test in e. apply andb_prop in e. destruct e as [e _].
    apply Z.ltb_lt in e. repeat split; auto; lia.
  - intros v g e _. repeat split; auto; lia.
Qed.

Lemma loop_exit_divides value g :
  1 <= g -> loop_test value g = false -> g * (value / g) = value.
Proof.
  intros Hg H. unfold loop_test in H. apply andb_false_iff in H.
  destruct H as [H|H].
  - apply Z.ltb_ge in H. assert (g = 1) by lia. subst.
    now rewrite Z.div_1_r, Z.mul_1_l.
  - apply negb_false_iff, Z.eqb_eq in H.
    pose proof (Z.div_mod value g ltac:(lia)). lia.
Qed.

Lemma round53_small v : Z.log2 v <= 52 -> round53 v = v.
Proof.
  intro H. unfold round53.
  destruct (Z.leb_spec (Z.log2 v - 52) 0); [reflexivity|lia].
Qed.

Lemma round53_ge2 v : 2 <= v -> 2 <= round53 v.
Proof.
  intro Hv. unfold round53.
  destruct (Z.leb_spec (Z.log2 v - 52) 0) as [_|He]; [exact Hv|].
  set (e := Z.log2 v - 52) in *.
  assert (Hp : 2 <= 2 ^ e)
    by (change 2 with (2 ^ 1) at 1; apply Z.pow_le_mono_r; lia).
  assert (Hq : 1 <= v / 2 ^ e).
  { apply Z.div_le_lower_bound; [lia|]. rewrite Z.mul_1_r.
    transitivity (2 ^ Z.log2 v).
    - apply Z.pow_le_mono_r; lia.
    - apply Z.log2_spec. lia. }
  destruct ((2 ^ (e - 1) <? v mod 2 ^ e)
            || (v mod 2 ^ e =? 2 ^ (e - 1)) && Z.odd (v / 2 ^ e)); nia.
Qed.

Lemma round53_bound v k :
  53 <= k -> 0 <= v < 2 ^ k -> round53 v <= 2 ^ k.
Proof.
  intros Hk Hv. unfold round53.
  destruct (Z.leb_spec (Z.log2 v - 52) 0) as [_|He]; [lia|].
  assert (Hv0 : 0 < v).
  { destruct (Z.eq_dec v 0) as [->|]; [simpl in He; lia|lia]. }
  set (e := Z.log2 v - 52) in *.
  assert (Hp : 0 < 2 ^ e) by (apply Z.pow_pos_nonneg; lia).
  assert (Hup : v < 2 ^ 53 * 2 ^ e).
  { rewrite <- Z.pow_add_r by lia.
    replace (53 + e) with (Z.succ (Z.log2 v)) by (unfold e; lia).
    apply Z.log2_spec, Hv0. }
  assert (Hq : v / 2 ^ e < 2 ^ 53).
  { apply Z.div_lt_upper_bound; [exact Hp|]. rewrite Z.mul_comm. exact Hup. }
  assert (Hq0 : 0 <= v / 2 ^ e) by (apply Z.div_pos; lia).
  assert (Hle : 2 ^ 53 * 2 ^ e <= 2 ^ k).
  { rewrite <- Z.pow_add_r by lia. apply Z.pow_le_mono_r; [lia|].
    assert (Z.log2 v < k) by (apply Z.log2_lt_pow2; lia).
    unfold e. lia. }
  remember (2 ^ e) as P. remember (2 ^ k) as K. remember (2 ^ 53) as T.
  destruct ((2 ^ (e - 1) <? v mod P)
            || (v mod P =? 2 ^ (e - 1)) && Z.odd (v / P)); nia.
Qed.

(** Every integer below [2 ** 1024] in absolute value halves to a float. *)
Lemma halves_to_float_below value :
  Z.abs value < 2 ^ 1024 -> halves_to_float value.
Proof.
  intro H. unfold halves_to_float, float_limit2.
  apply Z.le_lt_trans with (2 ^ 1024).
  - apply round53_bound; [lia|]. split; [apply Z.abs_nonneg|exact H].
  - apply Z.pow_lt_mono_r; lia.
Qed.

Lemma int_true_div2_pos value :
  2 <= value -> halves_to_float value ->
  exists start, int_true_div2 value = Ok start /\ 1 <= start.
Proof.
  intros Hv Hf. unfold int_true_div2, halves_to_float in *.
  destruct (Z.leb_spec float_limit2 (round53 (Z.abs value))); [lia|].
  rewrite Z.abs_eq, Z.sgn_pos, Z.mul_1_l in * by lia.
  eexists. split; [reflexivity|].
  pose proof (round53_ge2 value Hv).
  apply Z.quot_le_lower_bound; lia.
Qed.

Lemma int_true_div2_neg value :
  value <= -2 -> halves_to_float value ->
  exists start, int_true_div2 value = Ok start /\ start <= -1.
Proof.
  intros Hv Hf. unfold int_true_div2, halves_to_float in *.
  destruct (Z.leb_spec float_limit2 (round53 (Z.abs value))); [lia|].
  eexists. split; [reflexivity|].
  pose proof (round53_ge2 (Z.abs value) ltac:(lia)) as Hr.
  rewrite Z.sgn_neg by lia.
  replace (-1 * round53 (Z.abs value)) with (- round53 (Z.abs value)) by lia.
  rewrite Z.quot_opp_l by lia.
  assert (1 <= round53 (Z.abs value) ÷ 2)
    by (apply Z.quot_le_lower_bound; lia).
  lia.
Qed.

Lemma int_true_div2_zero value :
  -1 <= value <= 1 -> int_true_div2 value = Ok 0.
Proof.
  intro H.
  assert (C : value = -1 \/ value = 0 \/ value = 1) by lia.
  destruct C as [-> | [-> | ->]]; reflexivity.
Qed.

Lemma long_factorize_pair offset base verbose (w : World V) :
  pair_of (fst (long_factorize offset base verbose w)) =
  fst (long_factorize_raw offset base verbose (tick w)).
Proof. unfold long_factorize. now rewrite timed_pair_of. Qed.

Lemma long_factorize_raw_fst offset base verbose (w : World V) :
  fst (long_factorize_raw offset base verbose w) =
  factorize_outcome offset base.
Proof.
  unfold long_factorize_raw, factorize_outcome, vprint, bind, lift, ret, emit.
  cbv zeta.
  destruct (format_ints [base; offset; base + offset]) as [l1|e];
    [|reflexivity].
  destruct verbose;
    (destruct (int_true_div2 (base + offset)) as [start|e]; [|reflexivity];
     destruct (floordiv (base + offset) (while_loop (base + offset) start))
       as [f2|e]; [|reflexivity];
     now destruct (format_ints
                     [while_loop (base + offset) start * f2;
                      while_loop (base + offset) start; f2])).
Qed.

Lemma format_ints_ok line : Forall printable line -> format_ints line = Ok line.
Proof.
  induction 1 as [|x line Hx _ IH]; [reflexivity|].
  simpl. unfold printable in Hx.
  destruct (Z.leb_spec digits_limit (Z.abs x)); [lia|]. now rewrite IH.
Qed.

Lemma float_limit_pos : 0 < float_limit2.
Proof. reflexivity. Qed.

Lemma float_limit_printable : 4 * float_limit2 <= digits_limit.
Proof. vm_compute. discriminate. Qed.

Lemma round53_lower v : 0 <= v -> v <= 2 * round53 v.
Proof.
  intro Hv. unfold round53.
  destruct (Z.leb_spec (Z.log2 v - 52) 0) as [_|He]; [lia|].
  assert (Hv0 : 0 < v).
  { destruct (Z.eq_dec v 0) as [->|]; [simpl in He; lia|lia]. }
  set (e := Z.log2 v - 52) in *.
  assert (Hp : 0 < 2 ^ e) by (apply Z.pow_pos_nonneg; lia).
  assert (Hq : 1 <= v / 2 ^ e).
  { apply Z.div_le_lower_bound; [lia|]. rewrite Z.mul_1_r.
    transitivity (2 ^ Z.log2 v).
    - apply Z.pow_le_mono_r; lia.
    - apply Z.log2_spec. lia. }
  pose proof (Z.div_mod v (2 ^ e) ltac:(lia)) as D.
  pose proof (Z.mod_pos_bound v (2 ^ e) Hp) as M.
  remember (2 ^ e) as P. remember (v / P) as q. remember (v mod P) as r.
  destruct ((2 ^ (e - 1) <? r) || (r =? 2 ^ (e - 1)) && Z.odd q); nia.
Qed.

Lemma halves_printable value : halves_to_float value -> printable value.
Proof.
  unfold halves_to_float, printable. intro H.
  pose proof (round53_lower (Z.abs value) (Z.abs_nonneg value)).
  pose proof float_limit_printable. pose proof float_limit_pos. lia.
Qed.

(** What [long_factorize] returns, from the start the loop is given, when
    its two f-strings can be built. *)
Lemma long_factorize_raw_from offset base verbose (w : World V) start f2 :
  printable base -> printable offset -> printable (base + offset) ->
  int_true_div2 (base + offset) = Ok start ->
  floordiv (base + offset) (while_loop (base + offset) start) = Ok f2 ->
  Forall printable [while_loop (base + offset) start * f2;
                    while_loop (base + offset) start; f2] ->
  fst (long_factorize_raw offset base verbose w) =
  Ok (base + offset, while_loop (base + offset) start, f2).
Proof.
  intros Hb Ho Hv E D P.
  rewrite long_factorize_raw_fst. unfold factorize_outcome. cbv zeta.
  rewrite format_ints_ok by (repeat constructor; assumption).
  rewrite E, D. now rewrite (format_ints_ok _ P).
Qed.

(** C10, as the code has it.  Let [value = base + offset], with [base] and
    [offset] of at most 4300 decimal digits (the first f-string formats
    them, whatever [verbose] is) and [value / 2] in the range of floats.
    - If [value >= 2], the loop starts at an integer that is at least 1 and
      ends at [f1 >= 1]; the division by [f1] is defined, and the call
      returns [(value, f1, f2)] with [f1 * f2 = value].
    - If [value] is -1, 0 or 1, the loop is given 0 and the division raises
      [ZeroDivisionError].
    - If [value <= -2], the loop is given [int(value / 2)], a negative
      integer, which it leaves alone, and the call returns
      [(value, f1, value // f1)] with [f1 = int(value / 2) <= -1]: no
      division by zero. *)
Theorem long_factorize_safety offset base verbose (w : World V) :
  printable base -> printable offset ->
  halves_to_float (base + offset) ->
  (2 <= base + offset ->
   exists f1 f2,
     pair_of (fst (long_factorize offset base verbose w))
       = Ok (base + offset, f1, f2)
     /\ 1 <= f1 /\ f1 * f2 = base + offset)
  /\ (-1 <= base + offset <= 1 ->
      int_true_div2 (base + offset) = Ok 0
      /\ fst (long_factorize offset base verbose w) = Raise ZeroDivisionError)
  /\ (base + offset <= -2 ->
      exists f1,
        int_true_div2 (base + offset) = Ok f1
        /\ pair_of (fst (long_factorize offset base verbose w))
           = Ok (base + offset, f1, (base + offset) / f1)
        /\ f1 <= -1).
Proof.
  intros Hb Ho Hf. pose proof (halves_printable _ Hf) as Hp.
  set (value := base + offset) in *. split; [|split].
  - intro Hv.
    destruct (int_true_div2_pos value Hv Hf) as [start [E Hs]].
    destruct (while_loop_exit value start) as [Ht [Hrange _]].
    specialize (Hrange Hs).
    set (g := while_loop value start) in *.
    assert (M : g * (value / g) = value)
      by (apply loop_exit_divides; [lia|exact Ht]).
    exists g, (value / g).
    rewrite long_factorize_pair.
    rewrite (long_factorize_raw_from offset base verbose _ start (value / g));
      fold value; fold g.
    + split; [reflexivity|]. split; [lia|exact M].
    + exact Hb.
    + exact Ho.
    + exact Hp.
    + exact E.
    + unfold floordiv. destruct (Z.eqb_spec g 0); [lia|reflexivity].
    + unfold printable in *. rewrite M.
      assert (1 <= value / g) by nia.
      repeat constructor; try assumption; rewrite Z.abs_eq by lia; nia.
  - intro Hv. pose proof (int_true_div2_zero value Hv) as E.
    split; [exact E|].
    assert (R : fst (long_factorize_raw offset base verbose (tick w))
                = Raise ZeroDivisionError).
    { rewrite long_factorize_raw_fst. unfold factorize_outcome. cbv zeta.
      rewrite format_ints_ok by (repeat constructor; assumption).
      fold value. rewrite E.
      destruct (while_loop_exit value 0) as [_ [_ Hstay]].
      rewrite Hstay by lia. reflexivity. }
    unfold long_factorize. rewrite timed_spec.
    change ((fun '(o, b, vb) => long_factorize_raw (V:=V) o b vb)
              (offset, base, verbose) (tick w))
      with (long_factorize_raw offset base verbose (tick w)).
    destruct (long_factorize_raw offset base verbose (tick w)) as [[r|e] w'];
      simpl in R; [discriminate|now inversion R].
  - intro Hv.
    destruct (int_true_div2_neg value Hv Hf) as [start [E Hs]].
    destruct (while_loop_exit value start) as [_ [_ Hstay]].
    specialize (Hstay ltac:(lia)).
    exists start. split; [exact E|]. split; [|exact Hs].
    rewrite long_factorize_pair.
    rewrite (long_factorize_raw_from offset base verbose _ start
               (value / start)); fold value; rewrite ?Hstay.
    + reflexivity.
    + exact Hb.
    + exact Ho.
    + exact Hp.
    + exact E.
    + unfold floordiv. destruct (Z.eqb_spec start 0); [lia|reflexivity].
    + assert (B : - float_limit2 < start).
      { unfold int_true_div2 in E. unfold halves_to_float in Hf.
        fold value in Hf.
        destruct (Z.leb_spec float_limit2 (round53 (Z.abs value)));
          [discriminate|].
        inversion E as [Q].
        pose proof (round53_ge2 (Z.abs value) ltac:(lia)).
        rewrite Z.sgn_neg by lia.
        replace (-1 * round53 (Z.abs value))
          with (- round53 (Z.abs value)) by lia.
        rewrite Z.quot_opp_l by lia.
        assert (round53 (Z.abs value) ÷ 2 <= round53 (Z.abs value)).
        { rewrite Z.quot_div_nonneg by lia.
          apply Z.div_le_upper_bound; lia. }
        lia. }
      pose proof float_limit_printable as L.
      pose proof (Z.div_mod value start ltac:(lia)) as D.
      pose proof (Z.mod_neg_bound value start ltac:(lia)) as R.
      unfold printable in *.
      assert (V1 : - (2 * float_limit2) < value).
      { unfold halves_to_float in Hf.
        pose proof (round53_lower (Z.abs value) (Z.abs_nonneg value)).
        lia. }
      remember (value / start) as q. remember (value mod start) as r.
      assert (Q0 : 0 <= q) by nia.
      assert (Q1 : q <= - value) by nia.
      repeat constructor.
      * apply Z.abs_lt. nia.
      * apply Z.abs_lt. lia.
      * apply Z.abs_lt. lia.
Qed.

End Factorize.

(** C10 as stated fails on its last clause, and on its first for integers
    beyond the floats or beyond the digits an f-string accepts.  With the
    default base, the offset that makes [value = -2] does not divide by
    zero: [int(-2 / 2)] is -1, the loop does not run, and the call returns
    [(-2, -1, 2)].  For the offset [2 ** 1025] the quotient [value / 2] does
    not fit a float and the call raises [OverflowError].  And for the base
    [10 ** 5000] with the offset that makes [value = 35], the first f-string
    cannot format the base and the call raises [ValueError], with
    [verbose] false. *)
Lemma long_factorize_negative_returns :
  pair_of (fst (long_factorize (V:=Z) (-100000003) default_base false quiet))
    = Ok (-2, -1, 2)
  /\ fst (long_factorize (V:=Z) (2 ^ 1025) default_base false quiet)
    = Raise OverflowError
  /\ fst (long_factorize (V:=Z) (35 - 10 ^ 5000) (10 ^ 5000) false quiet)
    = Raise digits_error.
Proof.
  split; [|split]; vm_compute; reflexivity.
Qed.

Lemma long_factorize_safety_witness :
  exists f1 f2,
    pair_of (fst (long_factorize (V:=Z) 2 33 true quiet)) = Ok (35, f1, f2)
    /\ 1 <= f1 /\ f1 * f2 = 35.
Proof.
  destruct (long_factorize_safety (V:=Z) 2 33 true quiet) as [H _].
  - vm_compute. reflexivity.
  - vm_compute. reflexivity.
  - vm_compute. reflexivity.
  - apply H. lia.
Defined.

(** * Further properties *)

(** ** Elapsed times under a clock that never goes back *)

Section Elapsed.
Context {V : Type}.
Implicit Types (a : Adapter V) (w : World V) (n : Z).

Lemma keeps_clock_refl w : keeps_clock w w.
Proof. split; [reflexivity|lia]. Qed.

Lemma keeps_clock_add_events w evs : keeps_clock w (add_events w evs).
Proof. split; [reflexivity|simpl; lia]. Qed.

Lemma dispatch_keeps_clock a n pt ac mw vb w :
  keeps_clock w (snd (submit_get_results_raw a n pt ac mw vb w))
  /\ keeps_clock w (snd (map_results_raw a n pt mw vb w)).
Proof.
  rewrite map_results_spec. destruct ac.
  - rewrite submit_completed_spec.
    destruct (workers_ok mw); split; cbn [snd];
      try apply keeps_clock_refl; try apply keeps_clock_add_events.
    split; [reflexivity|simpl; lia].
  - rewrite submit_ordered_spec.
    destruct (workers_ok mw); split; cbn [snd];
      try apply keeps_clock_refl; apply keeps_clock_add_events.
Qed.

(** When the wall clock never goes back and the wrapped function leaves the
    clock alone, [timed] reports a non-negative number of seconds. *)
Theorem timed_elapsed_nonneg {A B} (f : A -> M V B) args w r w' :
  nondecreasing (clock w) ->
  f args (tick w) = (Ok r, w') ->
  keeps_clock (tick w) w' ->
  exists t, timed f args w = (Ok (r, t), tick w') /\ (0 <= t)%Q.
Proof.
  intros Hclk Hf [Hc Hn].
  exists (reading w' - reading w)%Q.
  rewrite timed_spec, Hf. split; [reflexivity|].
  unfold reading. rewrite Hc. cbn [tick clock now] in *.
  assert (H : (clock w (now w) <= clock w (now w'))%Q)
    by (apply Hclk; lia).
  lra.
Qed.

(** The total time of a dispatch is the difference between the clock
    readings that follow each other at the call: the dispatcher itself never
    reads the clock.  Under a clock that never goes back it is
    non-negative. *)
Lemma dispatch_no_clock_read a n pt ac mw vb w :
  reading (snd (submit_get_results_raw a n pt ac mw vb w)) = reading w
  /\ reading (snd (map_results_raw a n pt mw vb w)) = reading w.
Proof.
  rewrite map_results_spec. destruct ac.
  - rewrite submit_completed_spec. destruct (workers_ok mw); now split.
  - rewrite submit_ordered_spec. destruct (workers_ok mw); now split.
Qed.

(** The total time of a dispatch is the difference between two successive
    readings of the clock: the dispatcher itself never reads it.  Under a
    clock that never goes back the total is non-negative. *)
Theorem dispatch_total_time a n pt ac mw vb w b total :
  fst (submit_get_results a n pt ac mw vb w) = Ok (b, total)
  \/ fst (map_results a n pt mw vb w) = Ok (b, total) ->
  total = (clock w (S (now w)) - clock w (now w))%Q
  /\ (nondecreasing (clock w) -> (0 <= total)%Q).
Proof.
  intro H.
  assert (E : total = (clock w (S (now w)) - clock w (now w))%Q).
  { destruct (dispatch_no_clock_read a n pt ac mw vb (tick w)) as [K1 K2].
    destruct H as [H|H];
      [unfold submit_get_results in H|unfold map_results in H];
      rewrite timed_spec in H; cbv beta iota in H.
    - destruct (submit_get_results_raw a n pt ac mw vb (tick w))
        as [[r|e] w'] eqn:R; [|discriminate].
      cbn [fst snd] in *. inversion H; subst. now rewrite K1.
    - destruct (map_results_raw a n pt mw vb (tick w))
        as [[r|e] w'] eqn:R; [|discriminate].
      cbn [fst snd] in *. inversion H; subst. now rewrite K2. }
  split; [exact E|]. intro Hclk. subst total.
  assert (G : (clock w (now w) <= clock w (S (now w)))%Q)
    by (apply Hclk; lia).
  lra.
Qed.

End Elapsed.

Lemma timed_elapsed_nonneg_witness :
  exists t,
    timed (fun x : Z => emit (V:=Z) (EvSubmit x) ;;; ret (x + 1)) 4 quiet
      = (Ok (5, t), tick (add_events (tick quiet) [EvSubmit 4]))
    /\ (0 <= t)%Q.
Proof.
  apply (timed_elapsed_nonneg (V:=Z)
           (fun x : Z => emit (EvSubmit x) ;;; ret (x + 1)) 4 quiet 5
           (add_events (tick quiet) [EvSubmit 4])).
  - intros j k _. apply Qle_refl.
  - reflexivity.
  - apply keeps_clock_add_events.
Defined.

Lemma dispatch_total_time_witness :
  (0 <= inject_Z 1 - inject_Z 0)%Q.
Proof.
  destruct (dispatch_total_time index_adapter 3 ThreadPoolExecutor false None
              false (mkWorld (fun k => inject_Z (Z.of_nat k)) 0 [] [])
              ([0; 1; 2], [0%Q; 0%Q; 0%Q]) (inject_Z 1 - inject_Z 0)%Q)
    as [_ H].
  - left. reflexivity.
  - apply H. intros j k Hjk. cbn [clock]. rewrite <- Zle_Qle. lia.
Defined.

(** ** More on the dispatcher *)

Section DispatcherMore.
Context {V : Type}.
Implicit Types (a b : Adapter V) (w : World V) (n : Z).

Lemma range_nonpositive n : n <= 0 -> range n = [].
Proof.
  intro H. unfold range. replace (Z.to_nat n) with 0%nat by lia. reflexivity.
Qed.

(** A task count that is zero or negative gives no task at all: the pool is
    entered and left with nothing submitted, and the unpacking raises
    [ValueError], in the three modes. *)
Theorem dispatch_nonpositive_count a n pt ac mw vb w :
  n <= 0 -> workers_ok mw = true ->
  submit_get_results_raw a n pt ac mw vb w =
    (Raise unpack_error, add_events w [EvPoolEnter pt mw; EvPoolExit])
  /\ map_results_raw a n pt mw vb w =
    (Raise unpack_error, add_events w [EvPoolEnter pt mw; EvPoolExit]).
Proof.
  intros Hn Hw. rewrite map_results_spec, Hw.
  unfold outcomes, dispatch_events. rewrite (range_nonpositive n Hn).
  split; [|reflexivity]. destruct ac.
  - rewrite submit_completed_spec, Hw. unfold outcomes, dispatch_events.
    rewrite (range_nonpositive n Hn).
    replace (Z.to_nat n) with 0%nat by lia.
    destruct w as [c k picks tr]. now destruct picks.
  - rewrite submit_ordered_spec, Hw. unfold outcomes, dispatch_events.
    now rewrite (range_nonpositive n Hn).
Qed.

(** Whatever the outcome, a dispatch adds to the trace exactly: the pool
    entered, the [n] tasks submitted in index order, the pool shut down; or
    nothing at all when the executor refuses the worker count.  In
    particular the pool is shut down when a task raises, and every task is
    submitted before any result is looked at. *)
Theorem dispatch_trace a n pt ac mw vb w :
  trace (snd (submit_get_results a n pt ac mw vb w)) =
    trace w ++ (if workers_ok mw then dispatch_events pt mw n else [])
  /\ trace (snd (map_results a n pt mw vb w)) =
    trace w ++ (if workers_ok mw then dispatch_events pt mw n else []).
Proof.
  unfold submit_get_results, map_results. rewrite !timed_spec.
  cbv beta iota. rewrite map_results_spec.
  assert (E : trace (snd (submit_get_results_raw a n pt ac mw vb (tick w))) =
              trace w ++ (if workers_ok mw then dispatch_events pt mw n
                          else [])).
  { destruct ac.
    - rewrite submit_completed_spec.
      destruct (workers_ok mw); cbn; [reflexivity|now rewrite app_nil_r].
    - rewrite submit_ordered_spec.
      destruct (workers_ok mw); cbn; [reflexivity|now rewrite app_nil_r]. }
  split.
  - destruct (submit_get_results_raw a n pt ac mw vb (tick w))
      as [[r|e] w']; exact E.
  - destruct (workers_ok mw);
      destruct (batches (map in_generator (outcomes a n vb))); cbn;
      try reflexivity; now rewrite app_nil_r.
Qed.

(** The dispatcher calls the adapter at the indices 0 .. n-1 with the given
    verbosity and nowhere else: two adapters that agree there are
    dispatched alike. *)
Theorem dispatch_uses_batch_indices a b n pt ac mw vb w :
  (forall i, 0 <= i < n -> call a i vb = call b i vb) ->
  submit_get_results a n pt ac mw vb w = submit_get_results b n pt ac mw vb w
  /\ map_results a n pt mw vb w = map_results b n pt mw vb w.
Proof.
  intro H.
  assert (E : outcomes a n vb = outcomes b n vb).
  { unfold outcomes. apply map_ext_in. intros i Hi. apply H, range_In, Hi. }
  unfold submit_get_results, map_results. rewrite !timed_spec.
  cbv beta iota. rewrite !map_results_spec, E. split; [|reflexivity].
  destruct ac.
  - now rewrite !submit_completed_spec, E.
  - now rewrite !submit_ordered_spec, E.
Qed.

Lemma collect_first_raise {A} (l : list (Result A)) (k : nat) e :
  nth_error l k = Some (Raise e) ->
  (forall j, (j < k)%nat ->
     exists x, nth_error l j = Some (Ok x)) ->
  collect l = Raise e.
Proof.
  revert k. induction l as [|o l IH]; intros k Hk Hlow.
  - destruct k; discriminate.
  - destruct k as [|k].
    + simpl in Hk. inversion Hk. reflexivity.
    + destruct (Hlow 0%nat ltac:(lia)) as [x Hx].
      simpl in Hx. inversion Hx; subst. simpl.
      rewrite (IH k); [reflexivity|exact Hk|].
      intros j Hj. apply (Hlow (S j)). lia.
Qed.

(** In ordered submit mode and in map mode, the exception that reaches the
    caller comes from the lowest index at which the adapter raises,
    whichever task failed first in time: in ordered submit mode it is that
    exception, in map mode it is that exception as it leaves the generator
    of [Executor.map] ([RuntimeError] for a [StopIteration], itself
    otherwise). *)
Theorem ordered_failure_is_lowest_index a n pt mw vb w i e :
  workers_ok mw = true ->
  0 <= i < n ->
  call a i vb = Raise e ->
  (forall j, 0 <= j < i -> is_ok (call a j vb) = true) ->
  fst (submit_get_results a n pt false mw vb w) = Raise e
  /\ fst (map_results a n pt mw vb w) = Raise (generator_exit e).
Proof.
  intros Hw Hi He Hlow.
  assert (C : collect (outcomes a n vb) = Raise e).
  { apply (collect_first_raise _ (Z.to_nat i)).
    - unfold outcomes. rewrite map_range_nth_error by exact Hi.
      now rewrite He.
    - intros j Hj. unfold outcomes.
      rewrite <- (Nat2Z.id j), map_range_nth_error by lia.
      specialize (Hlow (Z.of_nat j) ltac:(lia)).
      destruct (call a (Z.of_nat j) vb) as [x|e']; [|discriminate].
      now exists x. }
  unfold submit_get_results, map_results. rewrite !timed_spec.
  cbv beta iota. rewrite submit_ordered_spec, map_results_spec, Hw.
  rewrite batches_in_generator. unfold batches. rewrite C.
  split; reflexivity.
Qed.

(** In completion-order mode, for at least one task and an adapter that
    returns at every index, the call returns the values and the seconds of
    the tasks in one and the same order, which is a permutation of the
    indices: both batches have length [n] and position [k] of the two
    batches belongs to the same task. *)
Theorem completion_batches_aligned a n pt mw vb w (val : Z -> V) (sec : Z -> Q) :
  1 <= n -> workers_ok mw = true ->
  (forall i, 0 <= i < n -> call a i vb = Ok (val i, sec i)) ->
  exists order,
    Permutation order (range n)
    /\ pair_of (fst (submit_get_results a n pt true mw vb w)) =
       Ok (map val order, map sec order)
    /\ List.length (map val order) = Z.to_nat n
    /\ List.length (map sec order) = Z.to_nat n.
Proof.
  intros Hn Hw H.
  exists (completion_order (completion w) (range n)).
  assert (P : Permutation (completion_order (completion w) (range n))
                          (range n)) by apply completion_order_perm.
  split; [exact P|].
  rewrite submit_pair, submit_completed_spec, Hw. cbn [fst completion tick].
  rewrite (outcomes_all_Ok a n vb val sec H).
  rewrite !completion_order_map. unfold Outcome.
  rewrite batches_map_Ok, !map_map.
  - split; [reflexivity|].
    rewrite !length_map, (Permutation_length P), range_length. now split.
  - intro E. apply map_eq_nil in E. rewrite E in P.
    apply Permutation_nil in P. now apply (range_nonempty n Hn).
Qed.

End DispatcherMore.

Lemma dispatch_nonpositive_count_witness :
  fst (submit_get_results_raw index_adapter (-3) ProcessPoolExecutor true
         (Some 4) false quiet) = Raise unpack_error.
Proof.
  destruct (dispatch_nonpositive_count index_adapter (-3) ProcessPoolExecutor
              true (Some 4) false quiet) as [E _].
  - lia.
  - reflexivity.
  - now rewrite E.
Defined.

Lemma dispatch_uses_batch_indices_witness :
  submit_get_results index_adapter 3 ThreadPoolExecutor true None false quiet =
  submit_get_results
    (mkAdapter "index_adapter"
       (fun i _ => if i <? 3 then Ok (i, 0%Q) else Raise (AdapterError i)))
    3 ThreadPoolExecutor true None false quiet.
Proof.
  apply (dispatch_uses_batch_indices index_adapter
           (mkAdapter "index_adapter"
              (fun i _ => if i <? 3 then Ok (i, 0%Q)
                          else Raise (AdapterError i)))
           3 ThreadPoolExecutor true None false quiet).
  intros i Hi. cbn [call index_adapter].
  destruct (Z.ltb_spec i 3); [reflexivity|lia].
Defined.

Lemma ordered_failure_is_lowest_index_witness :
  fst (submit_get_results
         (mkAdapter "fails_from_1"
            (fun i _ => if i =? 0 then Ok (i, 0%Q)
                        else Raise (AdapterError i)))
         3 ThreadPoolExecutor false None false quiet)
  = Raise (AdapterError 1).
Proof.
  apply (ordered_failure_is_lowest_index
           (mkAdapter "fails_from_1"
              (fun i _ => if i =? 0 then Ok (i, 0%Q)
                          else Raise (AdapterError i)))
           3 ThreadPoolExecutor None false quiet 1 (AdapterError 1)).
  - reflexivity.
  - lia.
  - reflexivity.
  - intros j Hj. assert (j = 0) by lia. subst. reflexivity.
Defined.

Lemma completion_batches_aligned_witness :
  exists order,
    Permutation order (range 3)
    /\ pair_of (fst (submit_get_results
                       (mkAdapter "square"
                          (fun i _ => Ok (i * i, inject_Z i)))
                       3 ThreadPoolExecutor true None false
                       (mkWorld (fun _ => 0%Q) 0 [2%nat; 0%nat] [])))
       = Ok (map (fun i => i * i) order, map inject_Z order).
Proof.
  destruct (completion_batches_aligned
              (mkAdapter "square" (fun i _ => Ok (i * i, inject_Z i)))
              3 ThreadPoolExecutor None false
              (mkWorld (fun _ => 0%Q) 0 [2%nat; 0%nat] [])
              (fun i => i * i) inject_Z) as [order [P [E _]]].
  - lia.
  - reflexivity.
  - intros i _. reflexivity.
  - exists order. split; [exact P|exact E].
Defined.

(** ** More on the reporting facade *)

Section Facade.
Context {V : Type}.
Implicit Types (a : Adapter V) (w : World V) (n : Z).

Lemma display_results_submit a n pt ac mw vb w :
  display_results a n pt "submit" ac mw vb w =
  report (submit_get_results a n pt ac mw vb
            (add_events w [EvPrintRunning (adapter_name a)])).
Proof.
  unfold display_results, report.
  change (("submit" =? "submit")%string) with true. cbv iota.
  unfold bind at 1. rewrite emit_spec. unfold bind at 1.
  destruct (submit_get_results a n pt ac mw vb
              (add_events w [EvPrintRunning (adapter_name a)]))
    as [[[[rs ts] total]|e] w']; [|reflexivity].
  unfold bind. rewrite !emit_spec, !add_events_app. reflexivity.
Qed.

Lemma display_results_map a n pt ac mw vb w :
  display_results a n pt "map" ac mw vb w =
  report (map_results a n pt mw vb
            (add_events w [EvPrintRunning (adapter_name a)])).
Proof.
  unfold display_results, report.
  change (("map" =? "submit")%string) with false.
  change (("map" =? "map")%string) with true. cbv iota.
  unfold bind at 1. rewrite emit_spec. unfold bind at 1.
  destruct (map_results a n pt mw vb
              (add_events w [EvPrintRunning (adapter_name a)]))
    as [[[[rs ts] total]|e] w']; [|reflexivity].
  unfold bind. rewrite !emit_spec, !add_events_app. reflexivity.
Qed.


Lemma dispatch_failure_shape a n pt ac mw vb w i e :
  0 <= i < n -> call a i vb = Raise e ->
  (exists e' w',
     submit_get_results a n pt ac mw vb w = (Raise e', w')
     /\ fails_with a n vb mw as_is (Raise (A:=unit) e')
     /\ trace w' =
        trace w ++ (if workers_ok mw then dispatch_events pt mw n else []))
  /\ (exists e' w',
     map_results a n pt mw vb w = (Raise e', w')
     /\ fails_with a n vb mw generator_exit (Raise (A:=unit) e')
     /\ trace w' =
        trace w ++ (if workers_ok mw then dispatch_events pt mw n else [])).
Proof.
  intros Hi He.
  destruct (batches_Raise a n vb _ i e (Permutation_refl _) Hi He)
    as [e1 [B1 R1]].
  destruct (batches_Raise a n vb
              (completion_order (completion (tick w)) (outcomes a n vb)) i e
              (Permutation_sym (completion_order_perm _ _)) Hi He)
    as [e2 [B2 R2]].
  unfold submit_get_results, map_results, fails_with.
  rewrite !timed_spec. cbv beta iota.
  rewrite map_results_spec, batches_in_generator, B1.
  split.
  - destruct ac.
    + rewrite submit_completed_spec. destruct (workers_ok mw).
      * rewrite B2. eexists _, _. split; [reflexivity|].
        split; [|reflexivity]. exists e2. split; [exact R2|reflexivity].
      * eexists _, _. split; [reflexivity|]. split; [reflexivity|].
        cbn. now rewrite app_nil_r.
    + rewrite submit_ordered_spec. destruct (workers_ok mw).
      * rewrite B1. eexists _, _. split; [reflexivity|].
        split; [|reflexivity]. exists e1. split; [exact R1|reflexivity].
      * eexists _, _. split; [reflexivity|]. split; [reflexivity|].
        cbn. now rewrite app_nil_r.
  - destruct (workers_ok mw).
    + eexists _, _. split; [reflexivity|].
      split; [|reflexivity]. exists e1. split; [exact R1|reflexivity].
    + eexists _, _. split; [reflexivity|]. split; [reflexivity|].
      cbn. now rewrite app_nil_r.
Qed.

Lemma fails_with_retype {A B} a n vb mw through e :
  fails_with a n vb mw through (Raise (A:=A) e) ->
  fails_with a n vb mw through (Raise (A:=B) e).
Proof.
  unfold fails_with. destruct (workers_ok mw).
  - intros [e' [R E]]. exists e'. split; [exact R|]. now inversion E.
  - intro E. now inversion E.
Qed.

(** If the adapter raises at an index of the batch, [display_results]
    raises too, in either style and either collection mode, having printed
    the line naming the adapter and nothing after it: no results, no times.
    The pool it created has been shut down.  The exception is the
    dispatcher's: in style ['submit'] one the adapter raised, in style
    ['map'] such a one as it leaves the generator of [Executor.map], and
    the executor's when it refuses the worker count. *)
Theorem display_results_failure a n pt ac mw vb w i e :
  0 <= i < n -> call a i vb = Raise e ->
  let expected :=
    trace w ++ EvPrintRunning (adapter_name a)
      :: (if workers_ok mw then dispatch_events pt mw n else []) in
  (fails_with a n vb mw as_is
     (fst (display_results a n pt "submit" ac mw vb w))
   /\ trace (snd (display_results a n pt "submit" ac mw vb w)) = expected)
  /\ (fails_with a n vb mw generator_exit
        (fst (display_results a n pt "map" ac mw vb w))
      /\ trace (snd (display_results a n pt "map" ac mw vb w)) = expected).
Proof.
  intros Hi He expected.
  destruct (dispatch_failure_shape a n pt ac mw vb
              (add_events w [EvPrintRunning (adapter_name a)]) i e Hi He)
    as [[e1 [w1 [E1 [J1 T1]]]] [e2 [w2 [E2 [J2 T2]]]]].
  rewrite display_results_submit, display_results_map, E1, E2.
  unfold report. cbn [fst snd]. rewrite T1, T2.
  unfold expected. cbn [add_events trace]. rewrite <- !app_assoc.
  repeat split; try reflexivity;
    eapply fails_with_retype; eassumption.
Qed.

End Facade.



Lemma display_results_failure_witness :
  trace (snd (display_results failing_adapter 3 ThreadPoolExecutor "submit"
                true None false quiet))
  = [EvPrintRunning "failing_adapter";
     EvPoolEnter ThreadPoolExecutor None; EvSubmit 0; EvSubmit 1; EvSubmit 2;
     EvPoolExit].
Proof.
  destruct (display_results_failure failing_adapter 3 ThreadPoolExecutor true
              None false quiet 1 (AdapterError 1)) as [[_ T] _].
  - lia.
  - reflexivity.
  - exact T.
Defined.

(** ** More on the factorising workload *)

Section FactorizeMore.
Context {V : Type}.

Lemma exact_float_bound_small value :
  0 <= value < exact_float_bound -> Z.log2 value <= 52.
Proof.
  intros [H0 H1]. destruct (Z.eq_dec value 0) as [->|Hne]; [simpl; lia|].
  assert (Z.log2 value < 53)
    by (apply Z.log2_lt_pow2; [lia|exact H1]).
  lia.
Qed.

(** Below [2 ** 53] the float quotient [value / 2] is exact and [int] of it
    is the floor. *)
Lemma int_true_div2_exact value :
  0 <= value < exact_float_bound -> int_true_div2 value = Ok (value / 2).
Proof.
  intro H. unfold int_true_div2.
  rewrite Z.abs_eq by lia.
  rewrite (round53_small value (exact_float_bound_small value H)).
  assert (L : value < float_limit2).
  { apply Z.lt_trans with exact_float_bound; [lia|].
    unfold exact_float_bound, float_limit2. apply Z.pow_lt_mono_r; lia. }
  destruct (Z.leb_spec float_limit2 value) as [C|_]; [lia|].
  f_equal. destruct (Z.eq_dec value 0) as [->|Hne]; [reflexivity|].
  rewrite Z.sgn_pos, Z.mul_1_l by lia.
  apply Z.quot_div_nonneg; lia.
Qed.

(** The loop stops at the first divisor it meets on the way down: nothing
    between its result and its start divides [value]. *)
Lemma while_loop_greatest value start d :
  while_loop value start < d <= start -> value mod d <> 0.
Proof.
  revert d.
  apply (while_loop_elim
           (fun value start r =>
              forall d, r < d <= start -> value mod d <> 0)).
  - intros v g e IH _ d Hd.
    unfold loop_test in e. apply andb_prop in e. destruct e as [_ e].
    apply negb_true_iff, Z.eqb_neq in e.
    destruct (Z.eq_dec d g) as [->|Hne]; [exact e|]. apply IH. lia.
  - intros v g e _ d Hd. lia.
Qed.

Lemma exact_float_bound_printable : exact_float_bound <= digits_limit.
Proof. vm_compute. discriminate. Qed.

Lemma long_factorize_exact offset base verbose (w : World V) :
  printable base -> printable offset ->
  2 <= base + offset < exact_float_bound ->
  pair_of (fst (long_factorize offset base verbose w)) =
    Ok (factor_triple (base + offset))
  /\ 1 <= while_loop (base + offset) ((base + offset) / 2)
       <= (base + offset) / 2.
Proof.
  intros Hb Ho H. set (value := base + offset) in *.
  assert (E : int_true_div2 value = Ok (value / 2))
    by (apply int_true_div2_exact; lia).
  assert (Hs : 1 <= value / 2)
    by (apply Z.div_le_lower_bound; lia).
  destruct (while_loop_exit value (value / 2)) as [Ht [Hrange _]].
  specialize (Hrange Hs). split; [|exact Hrange].
  set (g := while_loop value (value / 2)) in *.
  assert (M : g * (value / g) = value)
    by (apply loop_exit_divides; [lia|exact Ht]).
  pose proof exact_float_bound_printable as L.
  rewrite long_factorize_pair.
  rewrite (long_factorize_raw_from offset base verbose _ (value / 2)
             (value / g)); fold value; fold g.
  - reflexivity.
  - exact Hb.
  - exact Ho.
  - unfold printable. rewrite Z.abs_eq by lia. lia.
  - exact E.
  - unfold floordiv. destruct (Z.eqb_spec g 0); [lia|reflexivity].
  - unfold printable. rewrite M.
    assert (1 <= value / g) by nia.
    assert (value / 2 <= value) by (apply Z.div_le_upper_bound; lia).
    repeat constructor; rewrite Z.abs_eq by lia; nia.
Qed.

(** Started at [value // 2], the loop ends at the greatest proper divisor
    of [value]. *)
Lemma while_loop_greatest_divisor value :
  2 <= value ->
  let g := while_loop value (value / 2) in
  1 <= g < value
  /\ (g | value)
  /\ g * (value / g) = value
  /\ forall d, g < d < value -> ~ (d | value).
Proof.
  intros H g.
  assert (Hs : 1 <= value / 2) by (apply Z.div_le_lower_bound; lia).
  destruct (while_loop_exit value (value / 2)) as [Ht [Hrange _]].
  specialize (Hrange Hs). fold g in Ht, Hrange.
  assert (Hmul : g * (value / g) = value)
    by (apply loop_exit_divides; [lia|exact Ht]).
  assert (Hhalf : 2 * (value / 2) <= value < 2 * (value / 2) + 2).
  { pose proof (Z.div_mod value 2 ltac:(lia)).
    pose proof (Z.mod_pos_bound value 2 ltac:(lia)). lia. }
  split; [lia|]. split; [exists (value / g); lia|]. split; [exact Hmul|].
  intros d Hd [k Hk].
  destruct (Z_le_gt_dec d (value / 2)) as [Hle|Hgt].
  - apply (while_loop_greatest value (value / 2) d); [fold g; lia|].
    apply Z.mod_divide; [lia|]. now exists k.
  - assert (2 <= k) by nia. nia.
Qed.

(** The docstring's "largest factor less than value".  For [base] and
    [offset] of at most 4300 decimal digits and
    [2 <= value < 2 ** 53], [long_factorize] returns [(value, f1, f2)] where
    [f1] divides [value], is less than [value], and no integer strictly
    between [f1] and [value] divides [value]; and [f2] is the cofactor. *)
Theorem long_factorize_greatest_factor offset base verbose (w : World V) :
  printable base -> printable offset ->
  2 <= base + offset < exact_float_bound ->
  exists f1 f2,
    pair_of (fst (long_factorize offset base verbose w))
      = Ok (base + offset, f1, f2)
    /\ 1 <= f1 < base + offset
    /\ (f1 | base + offset)
    /\ f1 * f2 = base + offset
    /\ forall d, f1 < d < base + offset -> ~ (d | base + offset).
Proof.
  intros Hb Ho H.
  destruct (long_factorize_exact offset base verbose w Hb Ho H) as [E _].
  destruct (while_loop_greatest_divisor (base + offset) ltac:(lia))
    as [R [D [M G]]].
  exists (while_loop (base + offset) ((base + offset) / 2)).
  exists ((base + offset)
          / while_loop (base + offset) ((base + offset) / 2)).
  split; [exact E|]. repeat split; try assumption; lia.
Qed.

(** [long_factorize] tells primes apart: for [base] and [offset] of at
    most 4300 decimal digits and [2 <= value < 2 ** 53] it returns
    [(value, 1, value)] exactly when [value] is prime. *)
Theorem long_factorize_prime_iff offset base verbose (w : World V) :
  printable base -> printable offset ->
  2 <= base + offset < exact_float_bound ->
  (Z.prime (base + offset) <->
   pair_of (fst (long_factorize offset base verbose w))
     = Ok (base + offset, 1, base + offset)).
Proof.
  intros Hb Ho H.
  destruct (long_factorize_exact offset base verbose w Hb Ho H) as [E _].
  destruct (while_loop_greatest_divisor (base + offset) ltac:(lia))
    as [R [D [M G]]].
  set (f1 := while_loop (base + offset) ((base + offset) / 2)) in *.
  set (f2 := (base + offset) / f1) in *.
  unfold factor_triple in E. fold f1 f2 in E.
  rewrite E. split.
  - intros [_ P].
    assert (Hf1 : f1 = 1).
    { destruct (Z.eq_dec f1 1) as [|Hne]; [assumption|].
      exfalso. apply (P f1); [lia|exact D]. }
    assert (Hf2 : f2 = base + offset)
      by (unfold f2; rewrite Hf1; apply Z.div_1_r).
    now rewrite Hf1, Hf2.
  - intro Q. injection Q as Hf1 Hf2. split; [lia|].
    intros d Hd. apply G. lia.
Qed.

(** The third component is the least prime factor.  For [base] and
    [offset] of at most 4300 decimal digits and [2 <= value < 2 ** 53] the
    [f2] that [long_factorize] returns is a prime that divides [value], and
    no smaller prime divides [value]. *)
Theorem long_factorize_least_prime offset base verbose (w : World V) :
  printable base -> printable offset ->
  2 <= base + offset < exact_float_bound ->
  exists f1 f2,
    pair_of (fst (long_factorize offset base verbose w))
      = Ok (base + offset, f1, f2)
    /\ Z.prime f2
    /\ (f2 | base + offset)
    /\ forall p, Z.prime p -> (p | base + offset) -> f2 <= p.
Proof.
  intros Hb Ho H.
  destruct (long_factorize_exact offset base verbose w Hb Ho H) as [E _].
  destruct (while_loop_greatest_divisor (base + offset) ltac:(lia))
    as [R [D [M G]]].
  set (value := base + offset) in *.
  set (f1 := while_loop value (value / 2)) in *.
  set (f2 := value / f1) in *.
  exists f1, f2. split; [exact E|].
  assert (H2 : 2 <= f2) by nia.
  assert (L : forall d, 1 < d < f2 -> ~ (d | value)).
  { intros d Hd [k Hk].
    apply (G k); [nia|]. exists d. lia. }
  split; [|split].
  - split; [lia|]. intros m Hm Hdiv.
    apply (L m Hm). apply Z.divide_trans with f2; [exact Hdiv|].
    exists f1. lia.
  - exists f1. lia.
  - intros p [Hp _] Hdiv.
    destruct (Z_lt_le_dec p f2) as [Hlt|Hle]; [|exact Hle].
    exfalso. apply (L p); [lia|exact Hdiv].
Qed.

Lemma long_factorize_raw_silent offset base (w : World V) :
  snd (long_factorize_raw offset base false w) = w.
Proof.
  unfold long_factorize_raw, vprint, bind, lift, ret. cbv zeta.
  destruct (format_ints [base; offset; base + offset]) as [l1|e];
    [|reflexivity].
  destruct (int_true_div2 (base + offset)) as [start|e]; [|reflexivity].
  destruct (floordiv (base + offset) (while_loop (base + offset) start))
    as [f2|e]; [|reflexivity].
  now destruct (format_ints
                  [while_loop (base + offset) start * f2;
                   while_loop (base + offset) start; f2]).
Qed.

Lemma long_factorize_raw_reading offset base verbose (w : World V) :
  reading (snd (long_factorize_raw offset base verbose w)) = reading w.
Proof.
  unfold long_factorize_raw, vprint, bind, lift, ret, emit. cbv zeta.
  destruct (format_ints [base; offset; base + offset]) as [l1|e];
    [|reflexivity].
  destruct verbose;
    (destruct (int_true_div2 (base + offset)) as [start|e]; [|reflexivity];
     destruct (floordiv (base + offset) (while_loop (base + offset) start))
       as [f2|e]; [|reflexivity];
     now destruct (format_ints
                     [while_loop (base + offset) start * f2;
                      while_loop (base + offset) start; f2])).
Qed.

(** [verbose] only switches the printing: the returned triple (or the
    exception) is the same with and without it, and without it
    [long_factorize] adds nothing to the trace. *)
Theorem long_factorize_verbose_only_prints offset base (w : World V) :
  pair_of (fst (long_factorize offset base true w)) =
    pair_of (fst (long_factorize offset base false w))
  /\ trace (snd (long_factorize offset base false w)) = trace w.
Proof.
  split.
  - rewrite !long_factorize_pair. now rewrite !long_factorize_raw_fst.
  - unfold long_factorize. rewrite timed_spec. cbv beta iota.
    pose proof (long_factorize_raw_silent offset base (tick w)) as S.
    destruct (long_factorize_raw offset base false (tick w)) as [[r|e] w'];
      cbn [snd] in *; subst w'; reflexivity.
Qed.

(** What a worker's call of [long_factorize] gives: the triple, and the
    difference of two successive clock readings. *)
Lemma long_factorize_outcome offset base verbose (w : World V) :
  printable base -> printable offset ->
  2 <= base + offset < exact_float_bound ->
  fst (long_factorize offset base verbose w) =
  Ok (factor_triple (base + offset),
      (clock w (S (now w)) - clock w (now w))%Q).
Proof.
  intros Hb Ho H.
  destruct (long_factorize_exact offset base verbose w Hb Ho H) as [E _].
  pose proof (long_factorize_raw_reading offset base verbose (tick w)) as R.
  unfold long_factorize in *. rewrite timed_spec in *. cbv beta iota in *.
  destruct (long_factorize_raw offset base verbose (tick w)) as [[r|e] w'];
    cbn [fst snd pair_of] in *; [|discriminate].
  inversion E; subst. now rewrite R.
Qed.

End FactorizeMore.

(** Dispatching [long_factorize] over a pool.  For a base of at least 2, at
    least one task and values that stay below [2 ** 53], ordered
    submit-and-collect and map-and-collect return, at position [i], the
    triple for [base + i] and the seconds task [i] measured: the difference
    of the two readings of the clock its own worker saw around the call. *)
Theorem dispatch_long_factorize base worker n pt mw vb
    (w : World (Z * Z * Z)) :
  2 <= base -> 1 <= n -> base + n <= exact_float_bound ->
  workers_ok mw = true ->
  let results := map (fun i => factor_triple (base + i)) (range n) in
  let times :=
    map (fun i => (clock (worker i) (S (now (worker i)))
                   - clock (worker i) (now (worker i)))%Q) (range n) in
  pair_of (fst (submit_get_results (factorize_adapter base worker) n pt false
                  mw vb w)) = Ok (results, times)
  /\ pair_of (fst (map_results (factorize_adapter base worker) n pt mw vb w))
     = Ok (results, times).
Proof.
  intros Hb Hn Hbound Hw results times.
  pose proof exact_float_bound_printable as L.
  apply (ordered_dispatch_returns (factorize_adapter base worker) n pt mw vb
           w (fun i => factor_triple (base + i))
           (fun i => (clock (worker i) (S (now (worker i)))
                      - clock (worker i) (now (worker i)))%Q) Hn Hw).
  intros i Hi. unfold factorize_adapter, worker_adapter. cbn [call].
  rewrite long_factorize_outcome; [reflexivity| | |lia];
    unfold printable; rewrite Z.abs_eq by lia; lia.
Qed.

Lemma long_factorize_greatest_factor_witness :
  exists f1 f2,
    pair_of (fst (long_factorize (V:=Z) 2 33 false quiet)) = Ok (35, f1, f2)
    /\ (f1 | 35)
    /\ forall d, f1 < d < 35 -> ~ (d | 35).
Proof.
  destruct (long_factorize_greatest_factor (V:=Z) 2 33 false quiet)
    as [f1 [f2 [E [_ [D [_ G]]]]]].
  - vm_compute. reflexivity.
  - vm_compute. reflexivity.
  - unfold exact_float_bound. lia.
  - exists f1, f2. split; [exact E|]. split; [exact D|exact G].
Defined.

Lemma long_factorize_prime_iff_witness : Z.prime 37.
Proof.
  apply (long_factorize_prime_iff (V:=Z) 4 33 false quiet).
  - vm_compute. reflexivity.
  - vm_compute. reflexivity.
  - unfold exact_float_bound. lia.
  - reflexivity.
Defined.

Lemma long_factorize_least_prime_witness :
  exists f1 f2,
    pair_of (fst (long_factorize (V:=Z) 12 33 false quiet)) = Ok (45, f1, f2)
    /\ Z.prime f2
    /\ (f2 | 45).
Proof.
  destruct (long_factorize_least_prime (V:=Z) 12 33 false quiet)
    as [f1 [f2 [E [P [D _]]]]].
  - vm_compute. reflexivity.
  - vm_compute. reflexivity.
  - unfold exact_float_bound. lia.
  - exists f1, f2. split; [exact E|]. split; [exact P|exact D].
Defined.

Lemma dispatch_long_factorize_witness :
  pair_of (fst (submit_get_results
                  (factorize_adapter 33
                     (fun i => mkWorld (fun k => inject_Z (i * Z.of_nat k))
                                 0 [] []))
                  3 ThreadPoolExecutor false None false quiet))
  = Ok ([(33, 11, 3); (34, 17, 2); (35, 7, 5)],
        [(inject_Z 0 - inject_Z 0)%Q; (inject_Z 1 - inject_Z 0)%Q;
         (inject_Z 2 - inject_Z 0)%Q]).
Proof.
  destruct (dispatch_long_factorize 33
              (fun i => mkWorld (fun k => inject_Z (i * Z.of_nat k)) 0 [] [])
              3 ThreadPoolExecutor None false quiet) as [E _].
  - lia.
  - lia.
  - unfold exact_float_bound. lia.
  - reflexivity.
  - rewrite E. reflexivity.
Defined.
